(** * redactly.ai: the hybrid span detector and the redaction cascade

    A shallow embedding of [server/src/hybrid_detector.py] and
    [server/src/ocr_redaction.py], with the parts of [server/src/model.py],
    [server/src/redaction_service.py] and [server/app.py] that feed
    them, and the properties of the detection and redaction engine
    proved on it.

    Conventions of the embedding.
    - A Python [str] is a Rocq [string]; a character is its 8-bit code,
      read as the Unicode code point of the same number, so the
      character classes and the case mapping below are Python's on the
      code points 0..255.
    - A Python [int] is a [Z]; a Python [float] that holds a score is a
      rational, a [Q]: scores are never NaN or infinite, and a literal
      such as 0.85 is read as the decimal it spells.
    - Collaborators that live outside the repository (the compiler of
      the regex engine for the patterns of the user, the scores of
      RapidFuzz, the recognizer, the PDF document, the OCR engine) are
      section variables or fields of a class or record, so every theorem
      holds for each behaviour they may have. The examples use the
      normalized Indel similarity for [fuzz.ratio]. *)

From Stdlib Require Import ZArith QArith Bool Ascii String List Lia.
From Stdlib Require Import Permutation Sorted.
From stdpp Require Import base decidable option list strings gmap.
Import ListNotations.

Local Open Scope string_scope.
Local Open Scope list_scope.
Local Open Scope Z_scope.

(** ** The data model: [DetectionResult] *)

Record DetectionResult : Type := mkDetectionResult {
  text : string;        (* the matched text *)
  entity_type : string; (* PERSON, CUSTOM_KEYWORD, ... *)
  start : Z;            (* start position in text *)
  end_ : Z;             (* end position in text *)
  score : Q;            (* confidence, 0.0 - 1.0 *)
  match_mode : string   (* presidio, exact, fuzzy, regex, ... *)
}.

(** ** Overlap resolution: [_deduplicate_results] *)

Module Dedup.

(** The sort key of the source, [lambda r: (r.start, -r.score)]. *)
Definition sort_key (r : DetectionResult) : Z * Q :=
  (start r, Qopp (score r)).

Definition Qlt_bool (x y : Q) : bool := negb (Qle_bool y x).

(** Python's [<] on the key tuples: the first components decide unless
    they are equal, then the second ones do. *)
Definition key_lt (a b : Z * Q) : bool :=
  (fst a <? fst b) || ((fst a =? fst b) && Qlt_bool (snd a) (snd b)).

Definition result_lt (a b : DetectionResult) : bool :=
  key_lt (sort_key a) (sort_key b).

(** [sorted(results, key=...)]. Python's sort is stable and compares
    with [<] only, so its result is the one of a stable insertion sort:
    an element is put in front of the first element that is not
    strictly smaller than it. Elements are inserted from the right, so
    each one lands before the later elements of equal key. *)
Fixpoint insert_result (x : DetectionResult) (l : list DetectionResult)
  : list DetectionResult :=
  match l with
  | [] => [x]
  | y :: l' => if result_lt y x then y :: insert_result x l' else x :: y :: l'
  end.

Fixpoint sorted (results : list DetectionResult) : list DetectionResult :=
  match results with
  | [] => []
  | x :: l => insert_result x (sorted l)
  end.

(** One turn of the loop body, on the pair [(deduplicated, last_end)].
    The [elif] branch of the source builds the list of accepted texts,
    tests membership and then does [pass]. *)
Definition dedup_step (st : list DetectionResult * Z) (result : DetectionResult)
  : list DetectionResult * Z :=
  let '(deduplicated, last_end) := st in
  if last_end <=? start result then
    (deduplicated ++ [result], end_ result)
  else if negb (bool_decide (text result ∈ map text deduplicated)) then
    (deduplicated, last_end)
  else
    (deduplicated, last_end).

Definition _deduplicate_results (results : list DetectionResult)
  : list DetectionResult :=
  match results with
  | [] => []
  | _ =>
      let sorted_results := sorted results in
      fst (fold_left dedup_step sorted_results ([], -1))
  end.

(** *** What the specification says, in its own words *)

(** Two spans overlap when their half-open ranges share a character. *)
Definition overlaps (a b : DetectionResult) : bool :=
  (Z.max (start a) (start b) <? Z.min (end_ a) (end_ b)).

Definition no_overlap (l : list DetectionResult) : Prop :=
  forall i j a b, l !! i = Some a -> l !! j = Some b -> i <> j ->
                  overlaps a b = false.

(** "(start ascending, confidence descending)". *)
Definition before_or_tied (a b : DetectionResult) : Prop :=
  start a < start b \/ (start a = start b /\ Qle (score b) (score a)).

Definition tied (a b : DetectionResult) : bool :=
  (start a =? start b) && Qeq_bool (score a) (score b).

(** [s] is a stable sort of [l]: the same elements, in order, and the
    elements that tie keep the order they had in [l]. *)
Definition stable_sort_of (l s : list DetectionResult) : Prop :=
  Permutation l s /\
  StronglySorted before_or_tied s /\
  forall x, filter (fun r => tied x r = true) s = filter (fun r => tied x r = true) l.

(** The first span ends where the second starts, or before. *)
Definition ends_before (a b : DetectionResult) : Prop := end_ a <= start b.

(** "greedily walk the sorted list keeping a cursor; accept a span if
    start >= last_end, then set last_end = end; otherwise discard it". *)
Fixpoint greedy_accept (last_end : Z) (l : list DetectionResult)
  : list DetectionResult :=
  match l with
  | [] => []
  | r :: l' =>
      if Z.geb (start r) last_end then r :: greedy_accept (end_ r) l'
      else greedy_accept last_end l'
  end.

(** A proper range: it starts in the text and is not empty. *)
Definition proper (r : DetectionResult) : Prop := 0 <= start r < end_ r.

End Dedup.

(** ** Python strings *)

Module Py.

Definition len (s : string) : Z := Z.of_nat (String.length s).

Definition code (c : ascii) : N := N_of_ascii c.

Definition between (lo hi n : N) : bool := ((lo <=? n) && (n <=? hi))%N.

(** [str.isspace] on one character, which is also the class [\s]. *)
Definition isspace (c : ascii) : bool :=
  let n := code c in
  between 9 13 n || between 28 32 n || (n =? 133)%N || (n =? 160)%N.

(** The characters [str.lower] changes: A-Z and the capital letters of
    the Latin-1 block. *)
Definition isupper (c : ascii) : bool :=
  let n := code c in
  between 65 90 n || (between 192 222 n && negb (n =? 215)%N).

Definition lower_char (c : ascii) : ascii :=
  if isupper c then ascii_of_N (code c + 32) else c.

(** [str.lower] on the code points 0..255, where it maps character by
    character. Beyond them it does not: U+0130 becomes two characters,
    and a capital sigma is read with its neighbours. A property that
    needs the length of a lowercased string to be the length of the
    string says so in a hypothesis. *)
Fixpoint lower (s : string) : string :=
  match s with
  | EmptyString => EmptyString
  | String c s' => String (lower_char c) (lower s')
  end.

Fixpoint lstrip (s : string) : string :=
  match s with
  | EmptyString => EmptyString
  | String c s' => if isspace c then lstrip s' else s
  end.

Fixpoint rstrip (s : string) : string :=
  match s with
  | EmptyString => EmptyString
  | String c s' =>
      match rstrip s' with
      | EmptyString => if isspace c then EmptyString else String c EmptyString
      | r => String c r
      end
  end.

(** [s.strip()] *)
Definition strip (s : string) : string := rstrip (lstrip s).

(** Truth value of a string: [if s], [if not s]. *)
Definition truthy (s : string) : bool :=
  match s with EmptyString => false | _ => true end.

Fixpoint startswith (s needle : string) : bool :=
  match needle, s with
  | EmptyString, _ => true
  | String _ _, EmptyString => false
  | String a needle', String b s' => Ascii.eqb a b && startswith s' needle'
  end.

Fixpoint drop (n : nat) (s : string) : string :=
  match n, s with
  | O, _ => s
  | S _, EmptyString => EmptyString
  | S n', String _ s' => drop n' s'
  end.

(** The lowest index [>= i] at which [needle] occurs, [s] being the
    text from index [i] on; -1 when there is none. *)
Fixpoint find_at (s needle : string) (i : Z) : Z :=
  if startswith s needle then i
  else match s with
       | EmptyString => -1
       | String _ s' => find_at s' needle (i + 1)
       end.

(** [s.find(needle, start)]: a negative [start] counts from the end, and
    a [start] past the end finds nothing, not even the empty string. *)
Definition find (s needle : string) (start : Z) : Z :=
  let start := if start <? 0 then Z.max 0 (start + len s) else start in
  if len s <? start then -1
  else find_at (drop (Z.to_nat start) s) needle start.

(** [needle in s] *)
Definition contains (s needle : string) : bool :=
  negb (find s needle 0 =? -1).

(** One bound of a slice, brought into [0, len s]. *)
Definition clamp (s : string) (i : Z) : Z :=
  if i <? 0 then Z.max 0 (i + len s) else Z.min i (len s).

(** [s[i:j]] *)
Definition slice (s : string) (i j : Z) : string :=
  let i := clamp s i in
  let j := clamp s j in
  substring (Z.to_nat i) (Z.to_nat (j - i)) s.

(** [s.split()]: the maximal runs of characters that are not spaces.
    [cur] is the run being read. *)
Fixpoint split_aux (s : string) (cur : string) : list string :=
  match s with
  | EmptyString => if truthy cur then [cur] else []
  | String c s' =>
      if isspace c then
        (if truthy cur then [cur] else []) ++ split_aux s' EmptyString
      else split_aux s' (cur ++ String c EmptyString)%string
  end.

Definition split (s : string) : list string := split_aux s EmptyString.

(** [needle] occurs somewhere in [s]. *)
Fixpoint occurs (s needle : string) : bool :=
  startswith s needle
  || match s with
     | EmptyString => false
     | String _ s' => occurs s' needle
     end.

(** The first, and the last, character of [needle] is not a space. *)
Definition starts_solid (needle : string) : bool :=
  match needle with
  | EmptyString => false
  | String a _ => negb (isspace a)
  end.

Fixpoint ends_solid (needle : string) : bool :=
  match needle with
  | EmptyString => false
  | String a EmptyString => negb (isspace a)
  | String _ needle' => ends_solid needle'
  end.

End Py.

(** ** The regex engine, for the patterns written in the source

    Python's [re] is a backtracking matcher: alternatives are tried in
    order, repetitions are greedy, the first way to match wins. The
    matcher below is written in continuation-passing style: [k] is the
    rest of the pattern, and a failure of [k] makes the matcher try its
    next choice. *)

Module Re.
Import Py.

(** The class [\w] on the code points 0..255. *)
Definition isword (c : ascii) : bool :=
  let n := code c in
  between 48 57 n || between 65 90 n || (n =? 95)%N || between 97 122 n
  || (n =? 170)%N || (n =? 178)%N || (n =? 179)%N || (n =? 181)%N
  || (n =? 185)%N || (n =? 186)%N || between 188 190 n
  || (between 192 255 n && negb (n =? 215)%N && negb (n =? 247)%N).

Inductive regex : Type :=
| Class (p : ascii -> bool)                       (* one character of a class *)
| Lit (s : string)                                (* a literal, under IGNORECASE *)
| Seq (a b : regex)
| Alt (a b : regex)                               (* a|b *)
| Opt (a : regex)                                 (* a? *)
| Rep (p : ascii -> bool) (lo : nat) (hi : option nat) (* class{lo,hi}, class+, class* *)
| Group (a : regex)                               (* the capturing group 1 *)
| Look (a : regex)                                (* (?=a) *)
| WordB                                           (* \b *)
| Eol.                                            (* $ under MULTILINE *)

(** Group 1, when it took part in the match: its start and its end. *)
Definition capture : Type := option (nat * nat).

Fixpoint startswith_ci (s lit : string) : bool :=
  match lit, s with
  | EmptyString, _ => true
  | String _ _, EmptyString => false
  | String a lit', String b s' =>
      Ascii.eqb (lower_char a) (lower_char b) && startswith_ci s' lit'
  end.

(** The number of leading characters of [s] in the class [p]. *)
Fixpoint run_length (p : ascii -> bool) (s : string) : nat :=
  match s with
  | String c s' => if p c then S (run_length p s') else O
  | EmptyString => O
  end.

Definition word_at (t : string) (i : nat) : bool :=
  match String.get i t with Some c => isword c | None => false end.

(** [\b]: exactly one of the characters around [pos] is a word character. *)
Definition at_boundary (t : string) (pos : nat) : bool :=
  xorb (match pos with O => false | S i => word_at t i end) (word_at t pos).

(** [$] under MULTILINE: the end of the text, or just before a newline. *)
Definition at_eol (t : string) (pos : nat) : bool :=
  match String.get pos t with
  | Some c => (code c =? 10)%N
  | None => (pos =? String.length t)%nat
  end.

(** A greedy repetition tries the longest run first. *)
Fixpoint rep_down {A} (n lo pos : nat) (k : nat -> option A) : option A :=
  if (n <? lo)%nat then None
  else match k (pos + n)%nat with
       | Some r => Some r
       | None => match n with
                 | O => None
                 | S n' => rep_down n' lo pos k
                 end
       end.

Fixpoint run {A} (r : regex) (t : string) (pos : nat) (cap : capture)
  (k : nat -> capture -> option A) : option A :=
  match r with
  | Class p =>
      match String.get pos t with
      | Some c => if p c then k (S pos) cap else None
      | None => None
      end
  | Lit s =>
      if startswith_ci (drop pos t) s then k (pos + String.length s)%nat cap
      else None
  | Seq a b => run a t pos cap (fun pos' cap' => run b t pos' cap' k)
  | Alt a b =>
      match run a t pos cap k with
      | Some res => Some res
      | None => run b t pos cap k
      end
  | Opt a =>
      match run a t pos cap k with
      | Some res => Some res
      | None => k pos cap
      end
  | Rep p lo hi =>
      let n := run_length p (drop pos t) in
      let n := match hi with Some h => Nat.min n h | None => n end in
      rep_down n lo pos (fun pos' => k pos' cap)
  | Group a => run a t pos cap (fun pos' _ => k pos' (Some (pos, pos')))
  | Look a =>
      match run a t pos cap (fun _ cap' => Some cap') with
      | Some cap' => k pos cap'
      | None => None
      end
  | WordB => if at_boundary t pos then k pos cap else None
  | Eol => if at_eol t pos then k pos cap else None
  end.

(** A match object: [m.start()], [m.end()] and the span of group 1. *)
Record re_match : Type := mkMatch {
  m_start : nat;
  m_end : nat;
  m_group1 : capture
}.

(** [pattern.match(t, pos)] *)
Definition match_at (r : regex) (t : string) (pos : nat) : option re_match :=
  run r t pos None (fun e cap => Some (mkMatch pos e cap)).

(** [pattern.finditer(t)]: the leftmost match, then the leftmost match
    that starts at or after its end, and so on. [left] bounds the number
    of start positions still to try. The patterns of this program never
    match the empty string, so the scan restarts at the end of the match. *)
Fixpoint scan (left : nat) (r : regex) (t : string) (pos : nat) : list re_match :=
  match left with
  | O => []
  | S left' =>
      if (String.length t <? pos)%nat then []
      else match match_at r t pos with
           | Some m => m :: scan left' r t (Nat.max (m_end m) (S pos))
           | None => scan left' r t (S pos)
           end
  end.

Definition finditer (r : regex) (t : string) : list re_match :=
  scan (S (String.length t)) r t 0.

(** [m.group()] and [m.group(1)] *)
Definition group0 (t : string) (m : re_match) : string :=
  substring (m_start m) (m_end m - m_start m) t.

Definition alts (l : list string) : regex :=
  match l with
  | [] => Lit EmptyString
  | s :: l' => fold_left (fun r s' => Alt r (Lit s')) l' (Lit s)
  end.

(** The span of group 1 lies in the text. *)
Definition cap_ok (t : string) (cap : capture) : Prop :=
  match cap with
  | None => True
  | Some (s, e) => (s <= e <= String.length t)%nat
  end.

(** A match lies in the text, and so does its group. *)
Definition match_ok (t : string) (m : re_match) : Prop :=
  (m_start m <= m_end m <= String.length t)%nat /\ cap_ok t (m_group1 m).

(** Every character of [s] is in the class [p]. *)
Fixpoint all_chars (p : ascii -> bool) (s : string) : bool :=
  match s with
  | EmptyString => true
  | String c s' => p c && all_chars p s'
  end.

End Re.

(** ** RapidFuzz *)

(** The two scores the program asks RapidFuzz for, from 0 to 100. The
    program only compares them with a threshold and divides them by 100,
    so the theorems hold for every pair of functions. *)
Class RapidFuzz : Type := {
  ratio : string -> string -> Q;         (* fuzz.ratio *)
  partial_ratio : string -> string -> Q  (* fuzz.partial_ratio *)
}.

Module Fuzz.

(** [fuzz.ratio] is the normalized Indel similarity: with [d] the number
    of insertions and deletions that turn one string into the other,
    [100 * (1 - d / (len1 + len2))], and 100 for two empty strings.
    [d] is [len1 + len2 - 2 * lcs], [lcs] being the length of a longest
    common subsequence. *)
Fixpoint lcs (a b : string) : nat :=
  match a with
  | EmptyString => O
  | String x a' =>
      (fix inner (b : string) : nat :=
         match b with
         | EmptyString => O
         | String y b' =>
             if Ascii.eqb x y then S (lcs a' b')
             else Nat.max (lcs a' b) (inner b')
         end) b
  end.

Definition indel_ratio (s1 s2 : string) : Q :=
  let total := (String.length s1 + String.length s2)%nat in
  match total with
  | O => 100
  | S _ => (200 * Z.of_nat (lcs s1 s2)) # (Pos.of_nat total)
  end.

(** RapidFuzz with this ratio and a partial ratio of one's choice. *)
Definition indel_fuzz (partial : string -> string -> Q) : RapidFuzz :=
  {| ratio := indel_ratio; partial_ratio := partial |}.

End Fuzz.

(** ** The detector: [HybridPIIDetector] *)

Module Detector.
Import Py.

(** Deny list to prevent false positives on common table headers. *)
Definition DENY_LIST : gset string :=
  {[ "name"; "student"; "father"; "mother"; "guardian"; "aadhaar"; "caste";
     "category"; "income"; "board"; "university"; "college"; "course";
     "seat"; "type"; "quota"; "number"; "id"; "date"; "year"; "branch";
     "discipline"; "attestation"; "submitted"; "considered"; "eligible";
     "details"; "status"; "bank"; "branch" ]}.

(** A span is well formed for the text it was found in: its range is
    not empty and lies in the text, and its text is the text of the
    range. *)
Definition well_formed (input : string) (r : DetectionResult) : Prop :=
  0 <= start r /\ start r < end_ r /\ end_ r <= len input
  /\ text r = slice input (start r) (end_ r).

(** What a span of the fuzzy matcher is: a word of the text, whose
    confidence times 100 meets the threshold. *)
Definition fuzzy_span_ok (input : string) (threshold : Z) (r : DetectionResult)
  : Prop :=
  well_formed input r
  /\ Re.all_chars Re.isword (text r) = true
  /\ (inject_Z threshold <= score r * 100)%Q
  /\ entity_type r = "CUSTOM_KEYWORD"
  /\ (match_mode r = "fuzzy" \/ match_mode r = "fuzzy_partial").

(** *** [_filter_deny_list] *)

(** The two tests of the loop body that end in [continue]. *)
Definition denied (r : DetectionResult) : bool :=
  let text_lower := strip (lower (text r)) in
  if bool_decide (text_lower ∈ DENY_LIST) then true
  else if contains text_lower "name"
          && (Z.of_nat (length (split text_lower)) <=? 2) then true
  else false.

Definition _filter_deny_list (results : list DetectionResult)
  : list DetectionResult :=
  fold_left (fun filtered r => if denied r then filtered else filtered ++ [r])
            results [].

(** *** [_exact_match] *)

Definition exact_result (text keyword : string) (idx : Z) : DetectionResult :=
  {| text := slice text idx (idx + len keyword);
     entity_type := "CUSTOM_KEYWORD";
     start := idx;
     end_ := idx + len keyword;
     score := 1;
     match_mode := "exact" |}.

(** The [while True] loop over the occurrences of one keyword. Every
    turn moves [start] past the occurrence it found; [left] counts the
    turns that can still find one, and at [O] the index is past the end
    of the text, where [find] gives -1 and the loop stops
    ([exact_loop_enough] below: more turns change nothing). *)
Fixpoint exact_loop (left : nat) (text text_lower keyword keyword_lower : string)
  (start : Z) (results : list DetectionResult) : list DetectionResult :=
  match left with
  | O => results
  | S left' =>
      let idx := find text_lower keyword_lower start in
      if idx =? -1 then results
      else exact_loop left' text text_lower keyword keyword_lower (idx + 1)
                      (results ++ [exact_result text keyword idx])
  end.

Fixpoint exact_keywords (text text_lower : string)
  (keywords : list string) (results : list DetectionResult)
  : list DetectionResult :=
  match keywords with
  | [] => results
  | keyword :: rest =>
      if negb (truthy (strip keyword)) then
        exact_keywords text text_lower rest results
      else
        let keyword_lower := strip (lower keyword) in
        exact_keywords text text_lower rest
          (exact_loop (S (S (String.length text_lower))) text text_lower
                      keyword keyword_lower 0 results)
  end.

Definition _exact_match (text : string) (keywords : list string)
  : list DetectionResult :=
  exact_keywords text (lower text) keywords [].

(** *** [_fuzzy_match] *)

(** [re.compile(r'\b\w+\b')] *)
Definition word_pattern : Re.regex :=
  Re.Seq Re.WordB (Re.Seq (Re.Rep Re.isword 1 None) Re.WordB).

Section Fuzzy.

Context `{RapidFuzz}.

(** [score >= threshold] *)
Definition meets (score : Q) (threshold : Z) : bool :=
  Qle_bool (inject_Z threshold) score.

Definition fuzzy_result (word : string) (word_start word_end : Z) (score : Q)
  (mode : string) : DetectionResult :=
  {| text := word;
     entity_type := "CUSTOM_KEYWORD";
     start := word_start;
     end_ := word_end;
     score := score / 100;
     match_mode := mode |}.

(** The loop over the keywords for one word; it stops at the first
    keyword that matches ([break]). *)
Fixpoint fuzzy_keywords (word : string) (word_start word_end : Z)
  (keywords : list string) (threshold : Z) : option DetectionResult :=
  match keywords with
  | [] => None
  | keyword :: rest =>
      if negb (truthy (strip keyword)) then
        fuzzy_keywords word word_start word_end rest threshold
      else
        let score := ratio (lower word) (strip (lower keyword)) in
        if meets score threshold then
          Some (fuzzy_result word word_start word_end score "fuzzy")
        else if 4 <? len keyword then
          let partial_score := partial_ratio (strip (lower keyword)) (lower word) in
          if meets partial_score threshold then
            Some (fuzzy_result word word_start word_end partial_score "fuzzy_partial")
          else fuzzy_keywords word word_start word_end rest threshold
        else fuzzy_keywords word word_start word_end rest threshold
  end.

Definition _fuzzy_match (text : string) (keywords : list string) (threshold : Z)
  : list DetectionResult :=
  fold_left
    (fun results m =>
       let word := Re.group0 text m in
       let word_start := Z.of_nat (Re.m_start m) in
       let word_end := Z.of_nat (Re.m_end m) in
       match fuzzy_keywords word word_start word_end keywords threshold with
       | Some r => results ++ [r]
       | None => results
       end)
    (Re.finditer word_pattern text) [].

(** What one word of the text contributes. *)
Definition fuzzy_word (text : string) (keywords : list string) (threshold : Z)
  (m : Re.re_match) : option DetectionResult :=
  fuzzy_keywords (Re.group0 text m) (Z.of_nat (Re.m_start m))
                 (Z.of_nat (Re.m_end m)) keywords threshold.

End Fuzzy.

(** *** [_regex_match] *)

(** What [re.compile] does with a pattern of the user: it returns the
    compiled pattern, or raises [re.error], or raises something else
    (a repetition count that is too large raises [OverflowError]). *)
Inductive compiled (P : Type) : Type :=
| Compiled (regex : P)
| ReError
| OtherError.
Arguments Compiled {P} regex.
Arguments ReError {P}.
Arguments OtherError {P}.

(** The result of a call: a value, or an exception that escapes. *)
Inductive outcome (A : Type) : Type :=
| Returns (a : A)
| Raises.
Arguments Returns {A} a.
Arguments Raises {A}.

Section Regex.

Variable Pattern : Type.
(** [re.compile(p, re.IGNORECASE)] *)
Variable re_compile : string -> compiled Pattern.
(** [regex.finditer(text)], each match as [(m.start(), m.end())];
    [m.group()] is the text between the two. *)
Variable re_finditer : Pattern -> string -> list (Z * Z).

Definition regex_result (text : string) (m : Z * Z) : DetectionResult :=
  {| text := slice text (fst m) (snd m);
     entity_type := "CUSTOM_PATTERN";
     start := fst m;
     end_ := snd m;
     score := 1;
     match_mode := "regex" |}.

Fixpoint regex_patterns (text : string) (patterns : list string)
  (results : list DetectionResult) : outcome (list DetectionResult) :=
  match patterns with
  | [] => Returns results
  | pattern :: rest =>
      if negb (truthy (strip pattern)) then regex_patterns text rest results
      else
        match re_compile (strip pattern) with
        | Compiled regex =>
            regex_patterns text rest
              (results ++ map (regex_result text) (re_finditer regex text))
        | ReError => regex_patterns text rest results (* except re.error: continue *)
        | OtherError => Raises
        end
  end.

Definition _regex_match (text : string) (patterns : list string)
  : outcome (list DetectionResult) :=
  regex_patterns text patterns [].

(** The pattern is not blank and makes [re.compile] raise something
    that is not [re.error]. *)
Definition pattern_raises (pattern : string) : bool :=
  truthy (strip pattern)
  && match re_compile (strip pattern) with OtherError => true | _ => false end.

(** The spans of one pattern: none when it is blank or rejected. *)
Definition pattern_spans (text : string) (pattern : string) : list DetectionResult :=
  if negb (truthy (strip pattern)) then []
  else match re_compile (strip pattern) with
       | Compiled regex => map (regex_result text) (re_finditer regex text)
       | _ => []
       end.

End Regex.

(** A compiler that rejects the lone parenthesis with [re.error] and
    accepts every other pattern, for the examples. *)
Definition paren_compile (s : string) : compiled unit :=
  if String.eqb s "(" then ReError else Compiled tt.

(** The same compiler, which moreover raises [OverflowError] on a
    repetition count that is too large, as CPython's does. *)
Definition overflow_compile (s : string) : compiled unit :=
  if String.eqb s "a{99999999999}" then OtherError else paren_compile s.

(** *** [_detect_label_based_names] *)

Definition char_in (l : list N) (c : ascii) : bool :=
  existsb (N.eqb (code c)) l.

Definition isletter (c : ascii) : bool :=
  between 65 90 (code c) || between 97 122 (code c).

(** [[\s\:\-\.]] *)
Definition issep (c : ascii) : bool := isspace c || char_in [58; 45; 46]%N c.

(** [[A-Za-z\s\.]] *)
Definition isvalue (c : ascii) : bool :=
  isletter c || isspace c || char_in [46]%N c.

(** The pattern of the source, flag by flag and group by group; under
    [(?i)] the class [[A-Z]] is the class of the ASCII letters. *)
Definition label_regex : Re.regex :=
  Re.Seq Re.WordB
 (Re.Seq (Re.alts ["Name"; "Student"; "Father"; "Mother"; "Guardian"; "Husband"; "Wife"])
 (Re.Seq (Re.Opt (Re.Seq (Re.Rep isspace 1 None) (Re.alts ["Name"; "of"; "Student"])))
 (Re.Seq (Re.Rep issep 1 None)
 (Re.Seq (Re.Opt (Re.Seq (Re.Lit "as") (Re.Seq (Re.Rep isspace 1 None)
                 (Re.Seq (Re.Lit "in") (Re.Seq (Re.Rep isspace 1 None) (Re.Lit "Aadhaar"))))))
 (Re.Seq (Re.Rep issep 0 None)
 (Re.Seq (Re.Group (Re.Seq (Re.Class isletter) (Re.Rep isvalue 2 (Some 40%nat))))
         (Re.Look (Re.Alt Re.Eol
                  (Re.Alt (Re.Rep isspace 2 None) (Re.Class (char_in [10]%N))))))))))).

Definition label_step (text : string) (results : list DetectionResult)
  (m : Re.re_match) : list DetectionResult :=
  match Re.m_group1 m with
  | None => results (* group 1 is not optional: every match has it *)
  | Some (s, e) =>
      let value := strip (substring s (e - s) text) in
      if negb (truthy value) || (len value <? 2) then results
      else
        let val_lower := lower value in
        if bool_decide (val_lower ∈ DENY_LIST)
           || contains val_lower "id" || contains val_lower "number"
        then results
        else results ++ [ {| text := value;
                             entity_type := "PERSON";
                             start := Z.of_nat s;
                             end_ := Z.of_nat e;
                             score := 85 # 100;
                             match_mode := "label_heuristic" |} ]
  end.

Definition _detect_label_based_names (text : string) : list DetectionResult :=
  fold_left (label_step text) (Re.finditer label_regex text) [].

(** What a span of the label heuristic is. *)
Definition label_span_ok (input : string) (r : DetectionResult) : Prop :=
  entity_type r = "PERSON"
  /\ score r = 85 # 100
  /\ match_mode r = "label_heuristic"
  /\ 0 <= start r < end_ r /\ end_ r <= len input
  /\ text r = strip (slice input (start r) (end_ r))
  /\ 2 <= len (text r)
  /\ (lower (text r) ∉ DENY_LIST)
  /\ contains (lower (text r)) "id" = false
  /\ contains (lower (text r)) "number" = false.

(** *** [detect] *)

Inductive MatchMode : Type := EXACT | FUZZY | REGEX.

Section Detect.

Context `{RapidFuzz}.
Variable Pattern : Type.
Variable re_compile : string -> compiled Pattern.
Variable re_finditer : Pattern -> string -> list (Z * Z).
(** [_detect_with_presidio(text, entities, min_score)]: the recognizer
    is outside the repository; the method catches what it raises. *)
Variable _detect_with_presidio : string -> list string -> Q -> list DetectionResult.
(** [self.enabled_entities] *)
Variable self_enabled_entities : list string.

Definition _detect_keywords (text : string) (keywords : list string)
  (match_mode : MatchMode) (fuzzy_threshold : Z)
  : outcome (list DetectionResult) :=
  match match_mode with
  | EXACT => Returns (_exact_match text keywords)
  | FUZZY => Returns (_fuzzy_match text keywords fuzzy_threshold)
  | REGEX => _regex_match Pattern re_compile re_finditer text keywords
  end.

(** The layers of [detect], up to the first deduplication. *)
Definition detect_layers (text : string) (custom_keywords : option (list string))
  (match_mode : MatchMode) (fuzzy_threshold : Z)
  (enabled_entities : option (list string)) (min_score : Q)
  : outcome (list DetectionResult) :=
  let entities_to_use :=
    match enabled_entities with
    | Some l => l
    | None => self_enabled_entities
    end in
  let results :=
    match entities_to_use with
    | [] => []
    | _ => _detect_with_presidio text entities_to_use min_score
    end in
  let keyword_results :=
    match custom_keywords with
    | None | Some [] => Returns []
    | Some keywords => _detect_keywords text keywords match_mode fuzzy_threshold
    end in
  match keyword_results with
  | Raises => Raises
  | Returns keyword_results =>
      Returns (results ++ keyword_results ++ _detect_label_based_names text)
  end.

Definition detect (text : string) (custom_keywords : option (list string))
  (match_mode : MatchMode) (fuzzy_threshold : Z)
  (enabled_entities : option (list string)) (min_score : Q)
  : outcome (list DetectionResult) :=
  match detect_layers text custom_keywords match_mode fuzzy_threshold
                      enabled_entities min_score with
  | Raises => Raises
  | Returns results =>
      let results := Dedup._deduplicate_results results in
      let results := Dedup._deduplicate_results results in
      Returns (_filter_deny_list results)
  end.

End Detect.

End Detector.

(** ** The recognizer layer of [hybrid_detector.py], and [model.py] *)

Module Presidio.
Import Py.

(** Default Presidio entity types that can be toggled. *)
Definition DEFAULT_ENTITY_TYPES : list string :=
  [ "PERSON"; "EMAIL_ADDRESS"; "PHONE_NUMBER"; "CREDIT_CARD"; "US_SSN";
    "US_PASSPORT"; "LOCATION"; "DATE_TIME"; "IP_ADDRESS"; "IBAN_CODE"; "NRP";
    "MEDICAL_LICENSE"; "URL" ].

(** A result of the analyzer, [presidio_analyzer.RecognizerResult]. *)
Record RecognizerResult : Type := mkRecognizerResult {
  r_entity_type : string;
  r_start : Z;
  r_end : Z;
  r_score : Q
}.

(** [if name not in all_entities: all_entities.append(name)] *)
Definition append_missing (name : string) (all_entities : list string)
  : list string :=
  if bool_decide (name ∈ all_entities) then all_entities
  else all_entities ++ [name].

(** The entities the analyzer is asked for. *)
Definition all_entities (entities : list string) : list string :=
  append_missing "PAN_IN" (append_missing "AADHAAR_IN" entities).

Section Analyzer.

(** [self.analyzer.analyze(text=text, language='en', entities=...)] *)
Variable analyze : string -> list string -> Detector.outcome (list RecognizerResult).

Definition presidio_result (text : string) (r : RecognizerResult)
  : DetectionResult :=
  {| text := slice text (r_start r) (r_end r);
     entity_type := r_entity_type r;
     start := r_start r;
     end_ := r_end r;
     score := r_score r;
     match_mode := "presidio" |}.

Definition _detect_with_presidio (text : string) (entities : list string)
  (min_score : Q) : list DetectionResult :=
  match analyze text (all_entities entities) with
  | Detector.Returns presidio_results =>
      fold_left
        (fun results r =>
           if Qle_bool min_score (r_score r)
           then results ++ [presidio_result text r] else results)
        presidio_results []
  | Detector.Raises => []  (* except Exception: print; results is still empty *)
  end.

End Analyzer.

(** [HybridPIIDetector.__init__]: an empty list is false, as [None] is. *)
Definition init_enabled_entities (enabled_entities : option (list string))
  : list string :=
  match enabled_entities with
  | Some (e :: l) => e :: l
  | _ => DEFAULT_ENTITY_TYPES
  end.

(** [get_unique_terms]: [list(set(r.text for r in results))]. The order
    of the list is the one of the set, which Python leaves open: the
    terms are modelled as the set. *)
Definition get_unique_terms (results : list DetectionResult) : gset string :=
  list_to_set (map text results).

End Presidio.

(** [model.py] *)
Module Model.
Import Py Detector Presidio.

Definition mode_map : gmap string MatchMode :=
  {[ "exact" := EXACT; "fuzzy" := FUZZY; "regex" := REGEX ]}.

(** [mode_map.get(match_mode.lower(), MatchMode.EXACT)] *)
Definition parse_mode (match_mode : string) : MatchMode :=
  default EXACT (mode_map !! lower match_mode).

Section Analysis.

Context `{RapidFuzz}.
Variable Pattern : Type.
Variable re_compile : string -> compiled Pattern.
Variable re_finditer : Pattern -> string -> list (Z * Z).
Variable analyze : string -> list string -> outcome (list RecognizerResult).

(** [detector = HybridPIIDetector(enabled_entities); detector.detect(...)],
    with the default [min_score] of [detect], 0.6. *)
Definition analyze_text_with_positions (text : string)
  (custom_keywords : option (list string)) (match_mode : string)
  (fuzzy_threshold : Z) (enabled_entities : option (list string))
  : outcome (list DetectionResult) :=
  let mode := parse_mode match_mode in
  detect Pattern re_compile re_finditer (_detect_with_presidio analyze)
         (init_enabled_entities enabled_entities)
         text custom_keywords mode fuzzy_threshold enabled_entities (6 # 10).

(** [analyze_text_from_string], without its logging. *)
Definition analyze_text_from_string (text : string)
  (custom_keywords : option (list string)) (match_mode : string)
  (fuzzy_threshold : Z) (enabled_entities : option (list string))
  : outcome (gset string) :=
  match analyze_text_with_positions text custom_keywords match_mode
                                    fuzzy_threshold enabled_entities with
  | Returns results => Returns (get_unique_terms results)
  | Raises => Raises
  end.

End Analysis.

End Model.

(** ** OCR and PDF redaction: [ocr_redaction.py] *)

Module Ocr.
Import Py.
Export Detector(outcome, Returns, Raises).

(** An optional threshold counts as given when Python finds it true:
    it is not [None] and not 0 ([if fuzzy_threshold and ...]). *)
Definition threshold_set (fuzzy_threshold : option Z) : bool :=
  match fuzzy_threshold with
  | Some t => negb (t =? 0)
  | None => false
  end.

Definition meets (score : Q) (threshold : option Z) : bool :=
  match threshold with
  | Some t => Qle_bool (inject_Z t) score
  | None => false
  end.

(** *** The raster layer: [process_image_with_ocr] *)

(** One row of [pytesseract.image_to_data]. *)
Record ocr_word : Type := mkWord {
  o_text : string;
  o_left : Z;
  o_top : Z;
  o_width : Z;
  o_height : Z
}.

Definition color : Type := (Z * Z * Z)%type.

(** The drawing calls on the image, in the order they are made. *)
Inductive draw_op : Type :=
| Rectangle (pt1 pt2 : Z * Z) (c : color) (thickness : Z) (* cv2.rectangle *)
| PutText (s : string) (org : Z * Z) (c : color).        (* cv2.putText *)

Section Raster.

Context `{RapidFuzz}.
(** The module constant set by the import of rapidfuzz. *)
Variable RAPIDFUZZ_AVAILABLE : bool.

(** The loop over the terms for one OCR word: the value of [is_match]
    when the loop ends, by exhaustion or by [break]. *)
Fixpoint word_is_match (pii_terms : list string) (fuzzy_threshold : option Z)
  (text : string) : bool :=
  match pii_terms with
  | [] => false
  | term :: rest =>
      if contains (lower text) (lower term) then true
      else if threshold_set fuzzy_threshold && RAPIDFUZZ_AVAILABLE then
        let score := ratio (lower text) (lower term) in
        if meets score fuzzy_threshold then true
        else if 4 <? len term then
          let partial_score := partial_ratio (lower term) (lower text) in
          if meets partial_score fuzzy_threshold then true
          else word_is_match rest fuzzy_threshold text
        else word_is_match rest fuzzy_threshold text
      else word_is_match rest fuzzy_threshold text
  end.

Definition redact_word (method replace_text : string) (w : ocr_word)
  : list draw_op :=
  let x := o_left w in
  let y := o_top w in
  let w_ := o_width w in
  let h := o_height w in
  if String.eqb method "replace" then
    [ Rectangle (x, y) (x + w_, y + h) (255, 255, 255) (-1);
      PutText replace_text (x, y + h / 2) (0, 0, 0) ]
  else if String.eqb method "obfuscate" then
    [ Rectangle (x, y) (x + w_, y + h) (0, 0, 0) (-1) ]
  else
    [ Rectangle (x, y) (x + w_, y + h) (255, 255, 255) (-1) ].

(** The loop over the rows of the OCR result: what is drawn on the image. *)
Fixpoint process_words (ocr_result : list ocr_word) (pii_terms : list string)
  (method replace_text : string) (fuzzy_threshold : option Z) : list draw_op :=
  match ocr_result with
  | [] => []
  | w :: rest =>
      let text := strip (o_text w) in
      if negb (truthy text) then
        process_words rest pii_terms method replace_text fuzzy_threshold
      else if word_is_match pii_terms fuzzy_threshold text then
        redact_word method replace_text w
        ++ process_words rest pii_terms method replace_text fuzzy_threshold
      else process_words rest pii_terms method replace_text fuzzy_threshold
  end.

(** What makes one term match a word, as the specification lists it:
    the term is a case-insensitive substring of the word, or, a
    threshold being set, the ratio meets it, or the term is longer than
    four characters and the partial ratio meets it. *)
Definition term_matches (fuzzy_threshold : option Z) (text term : string) : Prop :=
  contains (lower text) (lower term) = true
  \/ (threshold_set fuzzy_threshold && RAPIDFUZZ_AVAILABLE = true
      /\ (meets (ratio (lower text) (lower term)) fuzzy_threshold = true
          \/ (4 < len term
              /\ meets (partial_ratio (lower term) (lower text))
                       fuzzy_threshold = true))).

(** The row is redacted: its trimmed text is not empty and matches. *)
Definition row_matches (pii_terms : list string) (fuzzy_threshold : option Z)
  (w : ocr_word) : bool :=
  truthy (strip (o_text w))
  && word_is_match pii_terms fuzzy_threshold (strip (o_text w)).

End Raster.

(** *** The document and what is done to it *)

(** PyMuPDF, the OCR engine and the image codec, as the program uses them. *)
Class Fitz : Type := {
  Rect : Type;                        (* fitz.Rect *)
  rect_or : Rect -> Rect -> Rect;     (* r1 | r2 *)
  rect_truthy : Rect -> bool;         (* if rect *)
  Bytes : Type;                       (* image data *)
  pixmap : Bytes -> outcome Bytes;    (* fitz.Pixmap(b), then .tobytes() *)
  ocr : Bytes -> outcome (list ocr_word);              (* decode, image_to_data *)
  encode : Bytes -> list draw_op -> outcome Bytes;     (* draw, cv2.imencode *)
  str_upper : string -> string        (* str.upper *)
}.

Section Document.

Context `{RapidFuzz} `{Fitz}.
Variable RAPIDFUZZ_AVAILABLE : bool.

(** [page.get_text("dict")]: blocks, of which some have lines, of spans. *)
Record span : Type := mkSpan { s_text : string; s_bbox : Rect }.
Definition line : Type := list span.          (* line["spans"] *)
Definition block : Type := option (list line). (* block["lines"], if present *)
Definition text_dict : Type := list block.     (* text_dict.get("blocks", []) *)

Inductive annot : Type :=
| AnnotText (s : string)   (* text=... *)
| AnnotFill (c : color).   (* fill=... *)

(** Every call on the document or on one of its pages. *)
Inductive event : Type :=
| EvSearchFor (page : nat) (needle : string)
| EvGetText (page : nat) (preserve_whitespace : bool)
| EvAddRedactAnnot (page : nat) (r : Rect) (a : annot)
| EvApplyRedactions (page : nat)
| EvGetImages (page : nat)
| EvExtractImage (xref : Z)
| EvProcessImage (img_bytes : Bytes)
| EvDeleteImage (xref : Z)
| EvAddImageRef (b : Bytes)
| EvReplaceImage (page : nat) (xref new_xref : Z)
| EvSetMetadata
| EvDelXmlMetadata
| EvSetMetadataOld
| EvSave
| EvClose.

(** The document answers a call from what was done to it so far. The
    calls the source wraps in [try] may raise. *)
Record Document : Type := {
  page_count : nat;
  search_for : list event -> nat -> string -> list Rect;
  get_text : list event -> nat -> bool -> outcome text_dict;
  get_images : list event -> nat -> list Z;
  extract_image : list event -> Z -> outcome (option Bytes);
  delete_image : list event -> Z -> outcome unit;
  add_image_ref : list event -> Bytes -> outcome Z;
  replace_image : list event -> nat -> Z -> Z -> outcome unit;
  has_del_xml_metadata : bool
}.

(** A computation that calls the document: from the calls made so far
    to a value and the calls made then. *)
Definition M (A : Type) : Type := list event -> A * list event.

Definition ret {A} (a : A) : M A := fun h => (a, h).

Definition bind {A B} (m : M A) (f : A -> M B) : M B :=
  fun h => let '(a, h') := m h in f a h'.

Definition call {A} (e : event) (answer : list event -> A) : M A :=
  fun h => (answer h, h ++ [e]).

Notation "x <- m ;; k" := (bind m (fun x => k))
  (at level 100, m at next level, right associativity).
Notation "m ;;; k" := (bind m (fun _ => k))
  (at level 100, right associativity).

Fixpoint for_each {A} (l : list A) (body : A -> M unit) : M unit :=
  match l with
  | [] => ret tt
  | x :: l' => body x ;;; for_each l' body
  end.

(** Inside a [try]: a call that raised ends the block. *)
Definition and_then {A B} (m : M (outcome A)) (f : A -> M (outcome B))
  : M (outcome B) :=
  r <- m ;; match r with Returns a => f a | Raises => ret Raises end.

Notation "x <-? m ;; k" := (and_then m (fun x => k))
  (at level 100, m at next level, right associativity).

(** [except Exception: ...; continue] *)
Definition try_except (m : M (outcome unit)) : M unit := m ;;; ret tt.

Variable doc : Document.

(** *** [_get_rect_for_range] *)

Definition span_info_t : Type := (Z * Z * Rect)%type.

Definition _get_rect_for_range (span_info : list span_info_t) (start end_ : Z)
  : option Rect :=
  let rects :=
    map snd (List.filter
               (fun i => (start <? snd (fst i)) && (fst (fst i) <? end_))
               span_info) in
  match rects with
  | [] => None
  | r :: rects' => Some (fold_left rect_or rects' r)
  end.

(** *** [_character_level_search] *)

(** The loop that concatenates the spans of a line. *)
Fixpoint line_spans (spans : line) (line_text : string)
  (span_info : list span_info_t) : string * list span_info_t :=
  match spans with
  | [] => (line_text, span_info)
  | sp :: rest =>
      let span_text := s_text sp in
      let span_start := len line_text in
      let span_end := span_start + len span_text in
      line_spans rest (line_text ++ span_text)%string
                 (span_info ++ [(span_start, span_end, s_bbox sp)])
  end.

(** The [while True] loop over the occurrences of the term in a line.
    Every turn moves [idx] past the occurrence it found; [left] counts
    the turns that can still find one, and at [O] the index is past the
    end of the line, where [find] gives -1 and the loop stops. *)
Fixpoint line_loop (left : nat) (line_lower term_lower term : string)
  (span_info : list span_info_t) (idx : Z) (positions : list Rect) : list Rect :=
  match left with
  | O => positions
  | S left' =>
      let found_idx := find line_lower term_lower idx in
      if found_idx =? -1 then positions
      else
        let match_end := found_idx + len term in
        let positions :=
          match _get_rect_for_range span_info found_idx match_end with
          | Some rect => if rect_truthy rect then positions ++ [rect] else positions
          | None => positions
          end in
        line_loop left' line_lower term_lower term span_info (found_idx + 1) positions
  end.

Definition search_line (term : string) (positions : list Rect) (l : line)
  : list Rect :=
  let '(line_text, span_info) := line_spans l EmptyString [] in
  let line_lower := lower line_text in
  line_loop (S (S (String.length line_lower))) line_lower (lower term) term
            span_info 0 positions.

Definition search_block (term : string) (positions : list Rect) (b : block)
  : list Rect :=
  match b with
  | None => positions (* "lines" not in block: continue *)
  | Some lines => fold_left (search_line term) lines positions
  end.

Definition _character_level_search (page : nat) (term : string) : M (list Rect) :=
  text_dict <- call (EvGetText page true) (fun h => get_text doc h page true) ;;
  match text_dict with
  | Returns blocks => ret (fold_left (search_block term) blocks [])
  | Raises => ret []  (* except Exception: print; positions is still empty *)
  end.

(** *** [_fuzzy_search_in_page] *)

(** The loop over the words of a span, left at the first word that
    meets the threshold. *)
Definition fuzzy_span (term : string) (threshold : Z) (positions : list Rect)
  (sp : span) : list Rect :=
  let words := split (s_text sp) in
  if existsb (fun word => Qle_bool (inject_Z threshold)
                                   (ratio (lower word) (lower term))) words
  then positions ++ [s_bbox sp]
  else positions.

Definition fuzzy_block (term : string) (threshold : Z) (positions : list Rect)
  (b : block) : list Rect :=
  match b with
  | None => positions
  | Some lines =>
      fold_left (fun positions l => fold_left (fuzzy_span term threshold) l positions)
                lines positions
  end.

Definition _fuzzy_search_in_page (page : nat) (term : string) (threshold : Z)
  : M (list Rect) :=
  text_dict <- call (EvGetText page false) (fun h => get_text doc h page false) ;;
  match text_dict with
  | Returns blocks => ret (fold_left (fuzzy_block term threshold) blocks [])
  | Raises => ret []
  end.

(** *** [search_text_with_fallback] *)

(** [if areas] *)
Definition nonempty {A} (l : list A) : bool :=
  match l with [] => false | _ => true end.

Definition search_text_with_fallback (page : nat) (term : string)
  (fuzzy_threshold : option Z) : M (list Rect) :=
  (* Strategy 1: native search *)
  areas <- call (EvSearchFor page term) (fun h => search_for doc h page term) ;;
  if nonempty areas then ret areas else
  (* Strategy 2: case-insensitive search *)
  areas <- call (EvSearchFor page (lower term))
                (fun h => search_for doc h page (lower term)) ;;
  if nonempty areas then ret areas else
  areas <- call (EvSearchFor page (str_upper term))
                (fun h => search_for doc h page (str_upper term)) ;;
  if nonempty areas then ret areas else
  (* Strategy 3: character-level search; [if not areas] holds here *)
  areas <- _character_level_search page term ;;
  if nonempty areas then ret areas else
  (* Strategy 4: fuzzy matching *)
  match fuzzy_threshold with
  | Some t =>
      if threshold_set fuzzy_threshold && RAPIDFUZZ_AVAILABLE then
        areas <- _fuzzy_search_in_page page term t ;;
        if nonempty areas then ret areas else ret []
      else ret []
  | None => ret []
  end.

(** *** [legal_redact_pdf] *)

Definition process_image_with_ocr (img_bytes : Bytes) (pii_terms : list string)
  (method replace_text : string) (fuzzy_threshold : option Z) : outcome Bytes :=
  match ocr img_bytes with
  | Returns ocr_result =>
      encode img_bytes
             (process_words RAPIDFUZZ_AVAILABLE ocr_result pii_terms method
                            replace_text fuzzy_threshold)
  | Raises => Raises
  end.

Definition redact_annot (method replace_text : string) : annot :=
  if String.eqb method "replace" then AnnotText replace_text
  else if String.eqb method "obfuscate" then AnnotFill (0, 0, 0)
  else AnnotText EmptyString.

(** The body of the first loop: the text layer of one page. *)
Definition text_layer (pii_terms : list string) (method replace_text : string)
  (fuzzy_threshold : option Z) (page : nat) : M unit :=
  for_each pii_terms (fun term =>
    areas <- search_text_with_fallback page term fuzzy_threshold ;;
    for_each areas (fun rect =>
      call (EvAddRedactAnnot page rect (redact_annot method replace_text))
           (fun _ => tt))) ;;;
  call (EvApplyRedactions page) (fun _ => tt).

(** The [try] block for one image of a page. *)
Definition replace_one_image (pii_terms : list string)
  (method replace_text : string) (fuzzy_threshold : option Z)
  (page : nat) (xref : Z) : M (outcome unit) :=
  base_image <-? call (EvExtractImage xref) (fun h => extract_image doc h xref) ;;
  match base_image with
  | None => ret (Returns tt)
  | Some img_bytes =>
      _pix <-? ret (pixmap img_bytes) ;;
      processed_bytes <-?
        call (EvProcessImage img_bytes)
             (fun _ => process_image_with_ocr img_bytes pii_terms method
                                              replace_text fuzzy_threshold) ;;
      new_pix <-? ret (pixmap processed_bytes) ;;
      _d <-? call (EvDeleteImage xref) (fun h => delete_image doc h xref) ;;
      new_xref <-? call (EvAddImageRef new_pix)
                        (fun h => add_image_ref doc h new_pix) ;;
      call (EvReplaceImage page xref new_xref)
           (fun h => replace_image doc h page xref new_xref)
  end.

(** The body of the second loop: the images of one page. *)
Definition image_layer (pii_terms : list string) (method replace_text : string)
  (fuzzy_threshold : option Z) (page : nat) : M unit :=
  images <- call (EvGetImages page) (fun h => get_images doc h page) ;;
  for_each images (fun xref =>
    try_except (replace_one_image pii_terms method replace_text
                                  fuzzy_threshold page xref)).

Definition clear_metadata : M unit :=
  call EvSetMetadata (fun _ => tt) ;;;
  call EvDelXmlMetadata (fun _ => tt) ;;;
  if has_del_xml_metadata doc then ret tt
  else call EvSetMetadataOld (fun _ => tt).

Definition pages : list nat := seq 0 (page_count doc).

Definition legal_redact_pdf (pii_terms : list string)
  (method replace_text : string) (fuzzy_threshold : option Z) : M unit :=
  (* Process all pages first *)
  for_each pages (text_layer pii_terms method replace_text fuzzy_threshold) ;;;
  (* IMAGE LAYER PROCESSING, separate pass to avoid xref conflicts *)
  for_each pages (image_layer pii_terms method replace_text fuzzy_threshold) ;;;
  clear_metadata ;;;
  call EvSave (fun _ => tt) ;;;
  call EvClose (fun _ => tt).

(** *** The cascade and the two passes, in the words of the specification *)

(** "Cascades through strategies": native search for the term as given,
    for the lowercased term, for the uppercased term, the character-level
    reconstruction, and the fuzzy fallback when a threshold is given. *)
Definition strategies (page : nat) (term : string) (fuzzy_threshold : option Z)
  : list (M (list Rect)) :=
  [ call (EvSearchFor page term) (fun h => search_for doc h page term);
    call (EvSearchFor page (lower term))
         (fun h => search_for doc h page (lower term));
    call (EvSearchFor page (str_upper term))
         (fun h => search_for doc h page (str_upper term));
    _character_level_search page term ]
  ++ match fuzzy_threshold with
     | Some t =>
         if threshold_set fuzzy_threshold && RAPIDFUZZ_AVAILABLE
         then [_fuzzy_search_in_page page term t] else []
     | None => []
     end.

(** "stopping at the first that yields any match"; the empty list when
    none does. *)
Fixpoint first_nonempty (l : list (M (list Rect))) : M (list Rect) :=
  match l with
  | [] => ret []
  | strategy :: l' =>
      areas <- strategy ;;
      if nonempty areas then ret areas else first_nonempty l'
  end.

(** The calls each strategy may make, in the order of the cascade. *)
Definition cascade_calls (page : nat) (term : string) : list event :=
  [ EvSearchFor page term; EvSearchFor page (lower term);
    EvSearchFor page (str_upper term); EvGetText page true;
    EvGetText page false ].

(** The calls of the text layer: searching, annotating, committing. *)
Definition text_layer_event (e : event) : bool :=
  match e with
  | EvSearchFor _ _ | EvGetText _ _ | EvAddRedactAnnot _ _ _
  | EvApplyRedactions _ => true
  | _ => false
  end.

(** The calls of the image layer: listing, extracting, processing and
    replacing an embedded image. *)
Definition image_layer_event (e : event) : bool :=
  match e with
  | EvGetImages _ | EvExtractImage _ | EvProcessImage _ | EvDeleteImage _
  | EvAddImageRef _ | EvReplaceImage _ _ _ => true
  | _ => false
  end.

Definition is_text (e : event) : Prop := text_layer_event e = true.
Definition is_image (e : event) : Prop := image_layer_event e = true.
Definition is_closing (e : event) : Prop :=
  text_layer_event e = false /\ image_layer_event e = false.

(** [m] only adds calls, and the calls it adds satisfy [P]. *)
Definition appends {A} (P : event -> Prop) (m : M A) : Prop :=
  forall h, exists t, snd (m h) = h ++ t /\ Forall P t.

(** The text of a line: the texts of its spans, one after the other. *)
Fixpoint concat_texts (l : line) : string :=
  match l with
  | [] => ""
  | sp :: rest => (s_text sp ++ concat_texts rest)%string
  end.

(** The offsets that the reconstruction of a line records, for the spans
    [l] read after the text [before]. *)
Fixpoint offsets (before : Z) (l : line) : list span_info_t :=
  match l with
  | [] => []
  | sp :: rest =>
      (before, before + len (s_text sp), s_bbox sp)
        :: offsets (before + len (s_text sp)) rest
  end.

(** The layout spans of a block. *)
Definition block_spans (b : block) : list span :=
  match b with
  | None => []
  | Some lines => concat lines
  end.

(** The layout spans of a page, in reading order. *)
Definition page_spans (blocks : text_dict) : list span :=
  flat_map block_spans blocks.

(** Some word of the span meets the threshold. *)
Definition span_is_fuzzy (term : string) (threshold : Z) (sp : span) : bool :=
  existsb (fun word => Qle_bool (inject_Z threshold)
                                (ratio (lower word) (lower term)))
          (split (s_text sp)).

(** Any call at all. *)
Definition any_event (e : event) : Prop := True.

(** The fuzzy search of the page is the only caller of
    [get_text("dict")] without flags. *)
Definition not_fuzzy_read (e : event) : Prop :=
  match e with
  | EvGetText _ false => False
  | _ => True
  end.

(** The annotation of a call that adds one is the one of the method. *)
Definition uses_method (method replace_text : string) (e : event) : Prop :=
  match e with
  | EvAddRedactAnnot _ _ a => a = redact_annot method replace_text
  | _ => True
  end.

End Document.

End Ocr.

(** ** The service and the endpoint: [redaction_service.py], [app.py] *)

Module Service.

(** [process_pdf_redaction]: the threshold that is handed to the
    redaction of the document,
    [fuzzy_threshold if match_mode == 'fuzzy' else None]. *)
Definition pdf_fuzzy_threshold (match_mode : string) (fuzzy_threshold : Z)
  : option Z :=
  if String.eqb match_mode "fuzzy" then Some fuzzy_threshold else None.

End Service.

Module App.
Import Py Detector.

Definition ALLOWED_EXTENSIONS : gset string := {[ "pdf" ]}.

(** The text before and the text after the last [sep] of [s], if [s]
    has one. *)
Fixpoint rsplit_last (sep : ascii) (s : string) : option (string * string) :=
  match s with
  | EmptyString => None
  | String c s' =>
      match rsplit_last sep s' with
      | Some (head, tail) => Some (String c head, tail)
      | None => if Ascii.eqb c sep then Some (EmptyString, s') else None
      end
  end.

(** [s.rsplit(sep, 1)] *)
Definition rsplit (s : string) (sep : ascii) : list string :=
  match rsplit_last sep s with
  | Some (head, tail) => [head; tail]
  | None => [s]
  end.

(** [allowed_file]; an index out of range raises, the [and] is lazy. *)
Definition allowed_file (filename : string) : outcome bool :=
  if contains filename "." then
    match rsplit filename "." !! 1%nat with
    | Some ext => Returns (bool_decide (lower ext ∈ ALLOWED_EXTENSIONS))
    | None => Raises
    end
  else Returns false.

(** [s.split(sep)]: the texts between the separators; [cur] is the text
    being read. *)
Fixpoint split_on (sep : ascii) (s : string) (cur : string) : list string :=
  match s with
  | EmptyString => [cur]
  | String c s' =>
      if Ascii.eqb c sep then cur :: split_on sep s' EmptyString
      else split_on sep s' (cur ++ String c EmptyString)%string
  end.

(** [redact_pdfs], the keywords when they are not JSON:
    [[k.strip() for k in keywords_raw.split(',') if k.strip()]]. *)
Definition keywords_fallback (keywords_raw : string) : list string :=
  map strip (List.filter (fun k => truthy (strip k))
                         (split_on "," keywords_raw EmptyString)).

(** [redact_pdfs], the matching mode: the field of the form, "exact"
    when it is missing, and "exact" for every value that is not one of
    the three names. *)
Definition form_match_mode (field : option string) : string :=
  let match_mode := default "exact" field in
  if bool_decide (match_mode ∈ ["exact"; "fuzzy"; "regex"]) then match_mode
  else "exact".

Section Form.

(** [int(s)], [None] when it raises [ValueError]. *)
Variable int : string -> option Z.

(** [redact_pdfs], the threshold: the field of the form, "85" when it is
    missing, brought into 0..100; 85 when it is not a number. *)
Definition form_fuzzy_threshold (field : option string) : Z :=
  match int (default "85" field) with
  | Some fuzzy_threshold => Z.max 0 (Z.min 100 fuzzy_threshold)
  | None => 85
  end.

End Form.

End App.

(** ** Examples *)

Module Examples.
Import Ocr.

Definition span_a : DetectionResult :=
  {| text := "John Smith"; entity_type := "PERSON"; start := 0; end_ := 10;
     score := 85 # 100; match_mode := "presidio" |}.
Definition span_b : DetectionResult :=
  {| text := "Smith"; entity_type := "CUSTOM_KEYWORD"; start := 5; end_ := 10;
     score := 1; match_mode := "exact" |}.


(** Rectangles as their four coordinates, images as their name; the
    OCR engine reads nothing and the codec gives the image back. *)
#[local] Instance box_fitz : Fitz :=
  {| Rect := Z * Z * Z * Z;
     rect_or := fun a b =>
       let '(ax0, ay0, ax1, ay1) := a in
       let '(bx0, by0, bx1, by1) := b in
       (Z.min ax0 bx0, Z.min ay0 by0, Z.max ax1 bx1, Z.max ay1 by1);
     rect_truthy := fun a =>
       let '(x0, y0, x1, y1) := a in
       negb ((x0 =? 0) && (y0 =? 0) && (x1 =? 0) && (y1 =? 0));
     Bytes := string;
     pixmap := fun b => Returns b;
     ocr := fun _ => Returns [];
     encode := fun b _ => Returns b;
     str_upper := fun s => s |}.

#[local] Instance half_fuzz : RapidFuzz := Fuzz.indel_fuzz (fun _ _ => 0%Q).

(** A line of two layout spans, "JOHN SM" and "ITH". *)
Definition two_spans : list (@span box_fitz) :=
  [ mkSpan "JOHN SM" (10, 10, 60, 20); mkSpan "ITH" (60, 10, 80, 20) ].

(** A document of one page: the native search finds nothing, the page
    has the line above and the images 7 and 8, and the extraction of an
    image raises. *)
Definition one_page : @Document box_fitz :=
  {| page_count := 1;
     search_for := fun _ _ _ => [];
     get_text := fun _ _ _ => Returns [Some [two_spans]];
     get_images := fun _ _ => [7; 8];
     extract_image := fun _ _ => Raises;
     delete_image := fun _ _ => Returns tt;
     add_image_ref := fun _ _ => Returns 9;
     replace_image := fun _ _ _ _ => Returns tt;
     has_del_xml_metadata := true |}.

End Examples.

(** * Theorems *)

Section DedupFacts.
Import Dedup.

Lemma Qlt_bool_iff x y : Qlt_bool x y = true <-> Qlt x y.
Proof.
  unfold Qlt_bool. rewrite negb_true_iff, <- not_true_iff_false, Qle_bool_iff.
  split; [apply Qnot_le_lt | apply Qlt_not_le].
Qed.

Lemma result_lt_false a b : result_lt b a = false <-> before_or_tied a b.
Proof.
  unfold result_lt, key_lt, sort_key, before_or_tied; simpl.
  rewrite orb_false_iff, andb_false_iff, Z.ltb_ge, Z.eqb_neq.
  rewrite <- not_true_iff_false, Qlt_bool_iff.
  split.
  - intros [Hle [Hne | Hq]]; [left; lia |].
    destruct (Z.eq_dec (start a) (start b)) as [He | Hne]; [right | left; lia].
    split; [exact He |].
    apply Qnot_lt_le in Hq. apply Qopp_le_compat in Hq.
    now rewrite !Qopp_involutive in Hq.
  - intros [Hlt | [He Hq]]; [split; [lia | left; lia] |].
    split; [lia | right]. apply Qle_not_lt. now apply Qopp_le_compat.
Qed.

Lemma before_or_tied_trans a b c :
  before_or_tied a b -> before_or_tied b c -> before_or_tied a c.
Proof.
  unfold before_or_tied. intros [H1 | [H1 Q1]] [H2 | [H2 Q2]]; try (left; lia).
  right. split; [lia |]. eapply Qle_trans; eauto.
Qed.

Lemma before_or_tied_total a b : before_or_tied a b \/ before_or_tied b a.
Proof.
  unfold before_or_tied.
  destruct (Z.lt_trichotomy (start a) (start b)) as [H | [H | H]]; auto.
  destruct (Qlt_le_dec (score a) (score b)) as [Hq | Hq].
  - right. right. split; [lia | now apply Qlt_le_weak].
  - left. right. split; [lia | exact Hq].
Qed.

Lemma tied_iff a b : tied a b = true <-> before_or_tied a b /\ before_or_tied b a.
Proof.
  unfold tied, before_or_tied. rewrite andb_true_iff, Z.eqb_eq, Qeq_bool_iff.
  split.
  - intros [He Hq]. split; right; (split; [lia |]); rewrite Hq; apply Qle_refl.
  - intros [[H1 | [H1 Q1]] [H2 | [H2 Q2]]]; try lia.
    split; [exact H1 | now apply Qle_antisym].
Qed.

Lemma tied_refl a : tied a a = true.
Proof. apply tied_iff. split; right; (split; [reflexivity | apply Qle_refl]). Qed.

(** The insertion sort is a stable sort. *)

Lemma insert_result_perm x l : Permutation (x :: l) (insert_result x l).
Proof.
  induction l as [| y l IH]; simpl; [reflexivity |].
  destruct (result_lt y x); [| reflexivity].
  rewrite perm_swap. now constructor.
Qed.

Lemma sorted_perm l : Permutation l (sorted l).
Proof.
  induction l as [| x l IH]; simpl; [constructor |].
  rewrite <- insert_result_perm. now constructor.
Qed.

Lemma insert_result_sorted x l :
  StronglySorted before_or_tied l -> StronglySorted before_or_tied (insert_result x l).
Proof.
  induction 1 as [| y l Hs IH Hy]; simpl.
  - repeat constructor.
  - destruct (result_lt y x) eqn:E.
    + constructor; [exact IH |].
      rewrite <- (insert_result_perm x l). constructor; [| exact Hy].
      destruct (before_or_tied_total y x) as [H | H]; [exact H |].
      apply result_lt_false in H. congruence.
    + apply result_lt_false in E.
      constructor; [now constructor |].
      constructor; [exact E |].
      eapply Forall_impl; [exact Hy |]. intros z Hz. simpl in Hz.
      eapply before_or_tied_trans; eauto.
Qed.

Lemma sorted_sorted l : StronglySorted before_or_tied (sorted l).
Proof.
  induction l; simpl; [constructor | now apply insert_result_sorted].
Qed.

Lemma insert_result_filter z x l :
  StronglySorted before_or_tied l ->
  filter (fun r => tied z r = true) (insert_result x l)
  = filter (fun r => tied z r = true) (x :: l).
Proof.
  induction 1 as [| y l Hs IH Hy]; simpl; [reflexivity |].
  destruct (result_lt y x) eqn:E; [| reflexivity].
  rewrite (filter_cons _ y), IH, !filter_cons.
  destruct (decide (tied z y = true)) as [Hzy | Hzy]; [| reflexivity].
  destruct (decide (tied z x = true)) as [Hzx | Hzx]; [| reflexivity].
  exfalso. apply tied_iff in Hzy, Hzx.
  assert (before_or_tied x y) as H
      by (eapply before_or_tied_trans; [apply Hzx | apply Hzy]).
  apply result_lt_false in H. congruence.
Qed.

Lemma sorted_stable z l :
  filter (fun r => tied z r = true) (sorted l) = filter (fun r => tied z r = true) l.
Proof.
  induction l as [| x l IH]; simpl; [reflexivity |].
  rewrite insert_result_filter by apply sorted_sorted.
  now rewrite !filter_cons, IH.
Qed.

Lemma sorted_is_stable_sort l : stable_sort_of l (sorted l).
Proof.
  split; [apply sorted_perm | split; [apply sorted_sorted | intros; apply sorted_stable]].
Qed.

(** A stable sort is unique, so the words of the specification fix the
    list the greedy walk runs on. *)
Lemma stable_sorted_unique s1 :
  forall s2,
    StronglySorted before_or_tied s1 -> StronglySorted before_or_tied s2 ->
    (forall x, filter (fun r => tied x r = true) s1 = filter (fun r => tied x r = true) s2) ->
    s1 = s2.
Proof.
  induction s1 as [| a s1 IH]; intros s2 H1 H2 Hf.
  - destruct s2 as [| b s2]; [reflexivity |].
    specialize (Hf b). rewrite filter_cons_True in Hf by apply tied_refl.
    discriminate.
  - destruct s2 as [| b s2].
    + specialize (Hf a). rewrite filter_cons_True in Hf by apply tied_refl.
      discriminate.
    + apply StronglySorted_inv in H1 as [H1 Ha], H2 as [H2 Hb].
      assert (before_or_tied b a) as Hba.
      { assert (a ∈ b :: s2) as Hin.
        { pose proof (Hf a) as Hfa.
          rewrite filter_cons_True in Hfa by apply tied_refl.
          assert (a ∈ filter (λ r, tied a r = true) (b :: s2)) as Hin
              by (rewrite <- Hfa; left).
          apply list_elem_of_filter in Hin. tauto. }
        apply elem_of_cons in Hin as [-> | Hin].
        - apply tied_iff, tied_refl.
        - rewrite Forall_forall in Hb. now apply Hb. }
      assert (before_or_tied a b) as Hab.
      { assert (b ∈ a :: s1) as Hin.
        { pose proof (Hf b) as Hfb.
          rewrite (filter_cons_True _ b s2) in Hfb by apply tied_refl.
          assert (b ∈ filter (λ r, tied b r = true) (a :: s1)) as Hin
              by (rewrite Hfb; left).
          apply list_elem_of_filter in Hin. tauto. }
        apply elem_of_cons in Hin as [-> | Hin].
        - apply tied_iff, tied_refl.
        - rewrite Forall_forall in Ha. now apply Ha. }
      assert (a = b) as ->.
      { pose proof (Hf a) as Hfa.
        rewrite filter_cons_True in Hfa by apply tied_refl.
        rewrite filter_cons_True in Hfa by (apply tied_iff; tauto).
        congruence. }
      f_equal. apply IH; [exact H1 | exact H2 |].
      intros x. specialize (Hf x). rewrite !filter_cons in Hf.
      destruct (decide (tied x b = true)); congruence.
Qed.

Lemma stable_sort_of_unique l s : stable_sort_of l s -> s = sorted l.
Proof.
  intros (_ & Hs & Hf). apply stable_sorted_unique; [exact Hs | apply sorted_sorted |].
  intros x. now rewrite Hf, sorted_stable.
Qed.


(** The loop of the source and the greedy walk of the specification. *)

Lemma fold_dedup_step l :
  forall acc c, fst (fold_left dedup_step l (acc, c)) = acc ++ greedy_accept c l.
Proof.
  induction l as [| r l IH]; intros acc c; simpl.
  - now rewrite app_nil_r.
  - rewrite Z.geb_leb. destruct (c <=? start r).
    + rewrite IH, <- app_assoc. reflexivity.
    + destruct (negb _); apply IH.
Qed.

Lemma dedup_greedy results :
  _deduplicate_results results = greedy_accept (-1) (sorted results).
Proof.
  destruct results as [| r l]; [reflexivity |].
  unfold _deduplicate_results. now rewrite fold_dedup_step.
Qed.


Lemma greedy_accept_elem c l x : x ∈ greedy_accept c l -> x ∈ l.
Proof.
  revert c. induction l as [| r l IH]; intros c; simpl; [easy |].
  destruct (Z.geb (start r) c).
  - rewrite !elem_of_cons. intros [-> | H]; [now left | right; eauto].
  - intros H. right. eauto.
Qed.

Lemma before_or_tied_start a b : before_or_tied a b -> start a <= start b.
Proof. unfold before_or_tied. lia. Qed.

Lemma greedy_accept_cursor l :
  StronglySorted before_or_tied l ->
  forall c, Forall (fun x => c <= start x) (greedy_accept c l).
Proof.
  induction 1 as [| r l Hs IH Hr]; intros c; simpl; [constructor |].
  rewrite Z.geb_leb. destruct (c <=? start r) eqn:E; [| apply IH].
  apply Z.leb_le in E. constructor; [exact E |].
  apply Forall_forall. intros x Hx. apply greedy_accept_elem in Hx.
  rewrite Forall_forall in Hr. apply Hr, before_or_tied_start in Hx. lia.
Qed.

Lemma greedy_accept_chain l :
  StronglySorted before_or_tied l ->
  forall c, StronglySorted ends_before (greedy_accept c l).
Proof.
  induction 1 as [| r l Hs IH Hr]; intros c; simpl; [constructor |].
  destruct (Z.geb (start r) c); [| apply IH].
  constructor; [apply IH |].
  now apply greedy_accept_cursor.
Qed.

Lemma greedy_accept_sorted l :
  StronglySorted before_or_tied l ->
  forall c, StronglySorted before_or_tied (greedy_accept c l).
Proof.
  induction 1 as [| r l Hs IH Hr]; intros c; simpl; [constructor |].
  destruct (Z.geb (start r) c); [| apply IH].
  constructor; [apply IH |].
  apply Forall_forall. intros x Hx. apply greedy_accept_elem in Hx.
  rewrite Forall_forall in Hr. now apply Hr.
Qed.

Lemma StronglySorted_lookup {A} (R : A -> A -> Prop) (l : list A) :
  StronglySorted R l ->
  forall i j a b, (i < j)%nat -> l !! i = Some a -> l !! j = Some b -> R a b.
Proof.
  induction 1 as [| x l Hs IH Hx]; intros i j a b Hij Hi Hj; [easy |].
  destruct j as [| j]; [lia |]. simpl in Hj.
  destruct i as [| i]; simpl in Hi.
  - injection Hi as <-. rewrite Forall_forall in Hx. apply Hx.
    eapply list_elem_of_lookup_2; eauto.
  - eapply IH; [| exact Hi | exact Hj]. lia.
Qed.

Lemma ends_before_no_overlap a b : ends_before a b -> overlaps a b = false /\ overlaps b a = false.
Proof. unfold ends_before, overlaps. intros H. split; apply Z.ltb_ge; lia. Qed.

Lemma chain_no_overlap l : StronglySorted ends_before l -> no_overlap l.
Proof.
  intros Hs i j a b Hi Hj Hij.
  destruct (Nat.lt_total i j) as [H | [H | H]]; [| contradiction |].
  - apply (StronglySorted_lookup _ _ Hs i j a b H Hi) in Hj.
    apply ends_before_no_overlap in Hj. tauto.
  - apply (StronglySorted_lookup _ _ Hs j i b a H Hj) in Hi.
    apply ends_before_no_overlap in Hi. tauto.
Qed.

(** Sorting a sorted list and walking a chain change nothing. *)

Lemma sorted_id l : StronglySorted before_or_tied l -> sorted l = l.
Proof.
  induction 1 as [| x l Hs IH Hx]; simpl; [reflexivity |].
  rewrite IH. destruct l as [| y l]; [reflexivity |]. simpl.
  apply Forall_cons_1 in Hx as [Hxy _]. apply result_lt_false in Hxy.
  now rewrite Hxy.
Qed.

Lemma greedy_accept_id l :
  StronglySorted ends_before l ->
  forall c, Forall (fun x => c <= start x) l -> greedy_accept c l = l.
Proof.
  induction 1 as [| x l Hs IH Hx]; intros c Hc; simpl; [reflexivity |].
  apply Forall_cons_1 in Hc as [Hcx _].
  rewrite Z.geb_leb. apply Z.leb_le in Hcx. rewrite Hcx. f_equal.
  now apply IH.
Qed.

(** C1. For every list of spans, no two spans of the output of
    [_deduplicate_results] have overlapping ranges [start, end), and the
    output is what the specification describes: the candidates stably
    sorted by (start ascending, confidence descending), walked greedily
    from the cursor -1, a span being accepted exactly when its start is
    at or after the end of the last accepted one. *)
Theorem dedup_no_overlap_greedy (results : list DetectionResult) :
  no_overlap (_deduplicate_results results) /\
  exists s, stable_sort_of results s /\
            _deduplicate_results results = greedy_accept (-1) s.
Proof.
  rewrite dedup_greedy. split.
  - apply chain_no_overlap, greedy_accept_chain, sorted_sorted.
  - exists (sorted results). split; [apply sorted_is_stable_sort | reflexivity].
Qed.

(** The output of the overlap resolution is sorted by the key, each of
    its spans starts at or after the end of the span before it, and the
    resolution gives it back unchanged. *)
Lemma dedup_output_fixed (results : list DetectionResult) :
  let out := _deduplicate_results results in
  StronglySorted before_or_tied out /\
  StronglySorted ends_before out /\
  _deduplicate_results out = out.
Proof.
  cbv zeta. rewrite (dedup_greedy results).
  pose proof (sorted_sorted results) as Hs.
  pose proof (greedy_accept_sorted _ Hs (-1)) as H1.
  pose proof (greedy_accept_chain _ Hs (-1)) as H2.
  split; [exact H1 | split; [exact H2 |]].
  rewrite dedup_greedy, (sorted_id _ H1).
  apply greedy_accept_id; [exact H2 |].
  now apply greedy_accept_cursor.
Qed.

End DedupFacts.

Section PyFacts.
Import Py.

Lemma len_nonneg s : 0 <= len s.
Proof. unfold len. lia. Qed.

Lemma len_String c s : len (String c s) = len s + 1.
Proof. unfold len. simpl. lia. Qed.

Lemma find_at_eq s needle i :
  find_at s needle i =
  if startswith s needle then i
  else match s with
       | EmptyString => -1
       | String _ s' => find_at s' needle (i + 1)
       end.
Proof. destruct s; reflexivity. Qed.

Lemma find_at_range s needle :
  forall i, find_at s needle i = -1 \/ (i <= find_at s needle i <= i + len s).
Proof.
  induction s as [| c s IH]; intros i; rewrite find_at_eq.
  - destruct (startswith "" needle); [right; unfold len; simpl; lia | now left].
  - destruct (startswith (String c s) needle).
    + right. pose proof (len_nonneg (String c s)). lia.
    + destruct (IH (i + 1)) as [H | H]; [now left | right].
      rewrite len_String. lia.
Qed.

Lemma length_drop n : forall s, String.length (drop n s) = (String.length s - n)%nat.
Proof.
  induction n as [| n IH]; intros s; simpl; [lia |].
  destruct s as [| c s]; simpl; [reflexivity | apply IH].
Qed.

(** [find] answers -1 or an index between [start] and the length. *)
Lemma find_range s needle start :
  0 <= start ->
  find s needle start = -1 \/ (start <= find s needle start <= len s).
Proof.
  intros Hs. unfold find.
  destruct (start <? 0) eqn:E; [apply Z.ltb_lt in E; lia |].
  destruct (len s <? start) eqn:E'; [now left |].
  apply Z.ltb_ge in E'.
  destruct (find_at_range (drop (Z.to_nat start) s) needle start) as [H | H];
    [now left | right].
  unfold len in *. rewrite length_drop in H. lia.
Qed.

Lemma find_past_end s needle start : len s < start -> find s needle start = -1.
Proof.
  intros Hs. unfold find. pose proof (len_nonneg s).
  destruct (start <? 0) eqn:E; [apply Z.ltb_lt in E; lia |].
  apply Z.ltb_lt in Hs. now rewrite Hs.
Qed.

Lemma isspace_lower_char c : isspace (lower_char c) = isspace c.
Proof. destruct c as [[] [] [] [] [] [] [] []]; reflexivity. Qed.

Lemma lower_lstrip s : lower (lstrip s) = lstrip (lower s).
Proof.
  induction s as [| c s IH]; simpl; [reflexivity |].
  rewrite isspace_lower_char. destruct (isspace c); [exact IH | reflexivity].
Qed.

Lemma lower_rstrip s : lower (rstrip s) = rstrip (lower s).
Proof.
  induction s as [| c s IH]; simpl; [reflexivity |].
  rewrite <- IH, isspace_lower_char.
  destruct (rstrip s); simpl; [destruct (isspace c) |]; reflexivity.
Qed.

(** Lowercasing and trimming commute. *)
Lemma lower_strip s : lower (strip s) = strip (lower s).
Proof. unfold strip. now rewrite lower_rstrip, lower_lstrip. Qed.

End PyFacts.

Section FindFacts.
Import Py.

Lemma startswith_len s : forall needle, startswith s needle = true -> len needle <= len s.
Proof.
  induction s as [| c s IH]; intros [| a needle]; cbn [startswith].
  - lia.
  - discriminate.
  - intros _. apply len_nonneg.
  - rewrite andb_true_iff. intros [_ Hs]. apply IH in Hs.
    rewrite !len_String. lia.
Qed.

Lemma find_at_fits s needle :
  forall i, find_at s needle i <> -1 ->
            find_at s needle i + len needle <= i + len s.
Proof.
  induction s as [| c s IH]; intros i; rewrite find_at_eq.
  - destruct (startswith "" needle) eqn:E; [| congruence].
    intros _. apply startswith_len in E. lia.
  - destruct (startswith (String c s) needle) eqn:E.
    + intros _. apply startswith_len in E. lia.
    + intros Hn. apply IH in Hn. rewrite len_String. lia.
Qed.

(** An occurrence that [find] reports lies inside the text. *)
Lemma find_fits s needle start :
  0 <= start -> find s needle start <> -1 ->
  start <= find s needle start /\ find s needle start + len needle <= len s.
Proof.
  intros Hs Hn. destruct (find_range s needle start Hs) as [E | E]; [congruence |].
  split; [lia |]. revert Hn. unfold find.
  destruct (start <? 0) eqn:E0; [apply Z.ltb_lt in E0; lia |].
  destruct (len s <? start) eqn:E1; [congruence |]. apply Z.ltb_ge in E1.
  intros Hn. apply find_at_fits in Hn.
  unfold len in *. rewrite length_drop in Hn. lia.
Qed.

Lemma truthy_len s : truthy s = true -> 0 < len s.
Proof. destruct s; [discriminate | rewrite len_String; pose proof (len_nonneg s); lia]. Qed.

End FindFacts.


Section StripFacts.
Import Py.

Lemma find_at_occurs s needle :
  forall i, 0 <= i -> (find_at s needle i =? -1) = negb (occurs s needle).
Proof.
  induction s as [| c s IH]; intros i Hi; rewrite find_at_eq; cbn [occurs].
  - destruct (startswith "" needle); [apply Z.eqb_neq; lia | reflexivity].
  - destruct (startswith (String c s) needle); [apply Z.eqb_neq; lia |].
    apply IH. lia.
Qed.

Lemma contains_occurs s needle : contains s needle = occurs s needle.
Proof.
  unfold contains, find. pose proof (len_nonneg s).
  change (0 <? 0) with false. cbv iota.
  destruct (len s <? 0) eqn:E; [apply Z.ltb_lt in E; lia |].
  change (drop (Z.to_nat 0) s) with s.
  rewrite find_at_occurs by lia. apply negb_involutive.
Qed.

Lemma isspace_eqb a c : isspace a = false -> isspace c = true -> Ascii.eqb a c = false.
Proof.
  intros Ha Hc. destruct (Ascii.eqb_spec a c) as [-> |]; [congruence | reflexivity].
Qed.

Lemma occurs_lstrip needle s :
  starts_solid needle = true -> occurs (lstrip s) needle = occurs s needle.
Proof.
  destruct needle as [| a needle]; [discriminate |]. cbn [starts_solid].
  intros Ha. apply negb_true_iff in Ha.
  induction s as [| c s IH]; [reflexivity |]. cbn [lstrip].
  destruct (isspace c) eqn:Ec; [| reflexivity].
  rewrite IH. cbn [occurs startswith]. now rewrite (isspace_eqb a c Ha Ec).
Qed.

Lemma startswith_nil s : startswith s "" = true.
Proof. now destruct s. Qed.

Lemma startswith_cons c s a needle :
  startswith (String c s) (String a needle) = Ascii.eqb a c && startswith s needle.
Proof. reflexivity. Qed.

Lemma startswith_nil_cons a needle : startswith "" (String a needle) = false.
Proof. reflexivity. Qed.

Lemma startswith_rstrip s :
  forall needle, ends_solid needle = true ->
                 startswith (rstrip s) needle = startswith s needle.
Proof.
  induction s as [| c s IH]; intros [| a needle] Hn; try discriminate; [reflexivity |].
  cbn [rstrip]. rewrite (startswith_cons c s). destruct needle as [| b needle].
  - cbn [ends_solid] in Hn. apply negb_true_iff in Hn. rewrite startswith_nil.
    destruct (rstrip s);
      [| now rewrite startswith_cons, startswith_nil].
    destruct (isspace c) eqn:Ec;
      [| now rewrite startswith_cons, startswith_nil].
    now rewrite startswith_nil_cons, (isspace_eqb a c Hn Ec).
  - assert (ends_solid (String b needle) = true) as Hn' by exact Hn.
    rewrite <- (IH _ Hn').
    destruct (rstrip s) eqn:Er; [| now rewrite startswith_cons].
    rewrite startswith_nil_cons, andb_false_r.
    destruct (isspace c); [reflexivity |].
    now rewrite startswith_cons, startswith_nil_cons, andb_false_r.
Qed.

Lemma occurs_nil needle : ends_solid needle = true -> occurs "" needle = false.
Proof. destruct needle; [discriminate | reflexivity]. Qed.

Lemma occurs_rstrip needle s :
  ends_solid needle = true -> occurs (rstrip s) needle = occurs s needle.
Proof.
  intros Hn. induction s as [| c s IH]; [reflexivity |].
  cbn [occurs]. rewrite <- (startswith_rstrip (String c s) needle Hn), <- IH.
  destruct needle as [| a needle]; [discriminate |].
  cbn [rstrip]. destruct (rstrip s) as [| d r]; [| reflexivity].
  destruct (isspace c); cbn [occurs]; now rewrite ?startswith_nil_cons, ?orb_false_r.
Qed.

(** Trimming changes neither the occurrences of a word nor the words. *)
Lemma contains_strip s needle :
  starts_solid needle = true -> ends_solid needle = true ->
  contains (strip s) needle = contains s needle.
Proof.
  intros H1 H2. rewrite !contains_occurs. unfold strip.
  now rewrite occurs_rstrip, occurs_lstrip.
Qed.

Lemma split_aux_cons c s cur :
  split_aux (String c s) cur =
  if isspace c then (if truthy cur then [cur] else []) ++ split_aux s ""
  else split_aux s (cur ++ String c "")%string.
Proof. reflexivity. Qed.

Lemma split_aux_rstrip s : forall cur, split_aux (rstrip s) cur = split_aux s cur.
Proof.
  induction s as [| c s IH]; intros cur; [reflexivity |].
  cbn [rstrip]. rewrite (split_aux_cons c s), <- !IH.
  destruct (rstrip s) as [| d r] eqn:Er.
  - destruct (isspace c) eqn:Ec.
    + cbn [split_aux truthy]. now rewrite app_nil_r.
    + now rewrite split_aux_cons, Ec.
  - now rewrite split_aux_cons.
Qed.

Lemma split_lstrip s : split (lstrip s) = split s.
Proof.
  unfold split. induction s as [| c s IH]; [reflexivity |].
  cbn [lstrip]. rewrite (split_aux_cons c s).
  destruct (isspace c) eqn:Ec; [exact IH | now rewrite split_aux_cons, Ec].
Qed.

Lemma split_strip s : split (strip s) = split s.
Proof.
  unfold strip. rewrite <- (split_lstrip s). unfold split. apply split_aux_rstrip.
Qed.

End StripFacts.

Section ExactFacts.
Import Py Detector.

(** More turns than the text has positions change nothing: the loop of
    [_exact_match] has stopped by then. *)
Lemma exact_loop_enough text text_lower keyword keyword_lower n :
  forall start results,
    0 <= start -> len text_lower + 2 - start <= Z.of_nat n ->
    exact_loop (S n) text text_lower keyword keyword_lower start results
    = exact_loop n text text_lower keyword keyword_lower start results.
Proof.
  induction n as [| n IH]; intros start results Hs Hn.
  - simpl. rewrite find_past_end by lia. reflexivity.
  - cbn [exact_loop].
    destruct (find_range text_lower keyword_lower start Hs) as [H | H].
    + rewrite H. reflexivity.
    + destruct (find text_lower keyword_lower start =? -1) eqn:E; [reflexivity |].
      apply (IH (find text_lower keyword_lower start + 1)); lia.
Qed.

Lemma exact_loop_stable text text_lower keyword keyword_lower results k :
  exact_loop (S (S (String.length text_lower)) + k) text text_lower
             keyword keyword_lower 0 results
  = exact_loop (S (S (String.length text_lower))) text text_lower
               keyword keyword_lower 0 results.
Proof.
  induction k as [| k IH]; [now rewrite Nat.add_0_r |].
  rewrite Nat.add_succ_r, exact_loop_enough; [exact IH | lia |].
  unfold len. lia.
Qed.

End ExactFacts.

Section ExactInvariant.
Import Py Detector.

Lemma exact_loop_well_formed input keyword n :
  let text_lower := lower input in
  let keyword_lower := strip (lower keyword) in
  len (lower input) = len input -> len (lower keyword) = len keyword ->
  strip keyword = keyword -> truthy (strip keyword) = true ->
  forall pos results,
    0 <= pos ->
    Forall (well_formed input) results ->
    Forall (well_formed input)
           (exact_loop n input text_lower keyword keyword_lower pos results).
Proof.
  cbv zeta. intros Hli Hlk Hk Ht.
  assert (strip (lower keyword) = lower keyword) as ->
      by (now rewrite <- lower_strip, Hk).
  rewrite Hk in Ht. apply truthy_len in Ht.
  induction n as [| n IH]; intros pos results Hs Hr.
  - exact Hr.
  - cbn [exact_loop].
    destruct (find (lower input) (lower keyword) pos =? -1) eqn:E; [exact Hr |].
    apply Z.eqb_neq in E. pose proof (find_fits _ _ _ Hs E) as [H1 H2].
    rewrite Hli, Hlk in H2.
    apply IH; [lia |]. apply Forall_app. split; [exact Hr |].
    constructor; [| constructor].
    unfold well_formed, exact_result. cbn [start end_ text].
    repeat (split; [lia |]). reflexivity.
Qed.

(** Exact matching keeps the invariant of spans for the keywords that
    have no surrounding whitespace, when lowercasing changes the length
    of neither the text nor the keywords. *)
Lemma exact_match_well_formed text keywords :
  len (lower text) = len text ->
  Forall (fun keyword => strip keyword = keyword
                         /\ len (lower keyword) = len keyword) keywords ->
  Forall (well_formed text) (_exact_match text keywords).
Proof.
  unfold _exact_match. intros Hli Hk.
  enough (forall results, Forall (well_formed text) results ->
                          Forall (well_formed text)
                                 (exact_keywords text (lower text) keywords results))
    as E by (apply E; constructor).
  induction Hk as [| keyword rest [Hk Hlk] Hrest IH]; intros results Hr; [exact Hr |].
  cbn [exact_keywords]. destruct (truthy (strip keyword)) eqn:Ht; cbn [negb].
  - apply IH. apply exact_loop_well_formed;
      [exact Hli | exact Hlk | exact Hk | exact Ht | lia | exact Hr].
  - apply IH, Hr.
Qed.

End ExactInvariant.

Section ScanFacts.
Import Py Re.

(** More start positions than the text has change nothing: the scan of
    [finditer] has reached the end of the text by then. *)
Lemma scan_enough r t n :
  forall pos, (S (String.length t) - pos <= n)%nat ->
              scan (S n) r t pos = scan n r t pos.
Proof.
  induction n as [| n IH]; intros pos Hn.
  - cbn [scan]. destruct (Nat.ltb_spec (String.length t) pos); [reflexivity | lia].
  - cbn [scan] in *. destruct (String.length t <? pos)%nat eqn:E; [reflexivity |].
    apply Nat.ltb_ge in E.
    destruct (match_at r t pos) as [m |].
    + f_equal. apply IH. lia.
    + apply IH. lia.
Qed.

Lemma finditer_stable r t k :
  scan (S (String.length t) + k) r t 0 = finditer r t.
Proof.
  unfold finditer. induction k as [| k IH]; [now rewrite Nat.add_0_r |].
  rewrite Nat.add_succ_r, scan_enough; [exact IH | lia].
Qed.

End ScanFacts.

Section LineFacts.
Import Py Ocr.
Context `{Fitz}.

(** The same for the loop of [_character_level_search]. *)
Lemma line_loop_enough line_lower term_lower term span_info n :
  forall idx positions,
    0 <= idx -> len line_lower + 2 - idx <= Z.of_nat n ->
    line_loop (S n) line_lower term_lower term span_info idx positions
    = line_loop n line_lower term_lower term span_info idx positions.
Proof.
  induction n as [| n IH]; intros idx positions Hs Hn.
  - cbn [line_loop]. rewrite find_past_end by lia. reflexivity.
  - cbn [line_loop].
    destruct (find_range line_lower term_lower idx Hs) as [E | E].
    + rewrite E. reflexivity.
    + destruct (find line_lower term_lower idx =? -1) eqn:E'; [reflexivity |].
      apply (IH (find line_lower term_lower idx + 1)); lia.
Qed.

End LineFacts.

Section DetectorFacts.
Import Py Detector.

(** C3. A keyword with surrounding whitespace is searched for trimmed
    but measured untrimmed: on the text "x john" the keyword " john "
    gives a span from 2 to 8 in a text of 6 characters. The label
    heuristic trims the value but not its range: on "Name: Bob " the
    span has the text "Bob" and the range of "Bob ". *)
Theorem span_range_past_text :
  _exact_match "x john" [" john "]
  = [ {| text := "john"; entity_type := "CUSTOM_KEYWORD";
         start := 2; end_ := 8; score := 1; match_mode := "exact" |} ]
  /\ len "x john" = 6
  /\ _detect_label_based_names "Name: Bob "
     = [ {| text := "Bob"; entity_type := "PERSON";
            start := 6; end_ := 10; score := 85 # 100;
            match_mode := "label_heuristic" |} ]
  /\ slice "Name: Bob " 6 10 = "Bob ".
Proof. cbv zeta. repeat (apply conj); vm_compute; reflexivity. Qed.

(** C5. On "Father Name  KISHOR KUMAR" the label heuristic returns one
    span: the text "KISHOR KUMAR", category PERSON, confidence 0.85. Its
    text contains neither "Father" nor "Name", and its range, 13 to 25,
    is the range of the value: the label lies before it. *)
Theorem label_heuristic_father_name :
  let input := "Father Name  KISHOR KUMAR" in
  _detect_label_based_names input
  = [ {| text := "KISHOR KUMAR"; entity_type := "PERSON";
         start := 13; end_ := 25; score := 85 # 100;
         match_mode := "label_heuristic" |} ]
  /\ contains "KISHOR KUMAR" "Father" = false
  /\ contains "KISHOR KUMAR" "Name" = false
  /\ slice input 13 25 = "KISHOR KUMAR"
  /\ slice input 0 13 = "Father Name  ".
Proof. cbv zeta. repeat (apply conj); vm_compute; reflexivity. Qed.

Lemma filter_deny_list_fold results :
  forall filtered,
    fold_left (fun filtered r => if denied r then filtered else filtered ++ [r])
              results filtered
    = filtered ++ filter (fun r => denied r = false) results.
Proof.
  induction results as [| r results IH]; intros filtered; cbn [fold_left].
  - rewrite filter_nil. now rewrite app_nil_r.
  - rewrite IH, filter_cons. destruct (denied r) eqn:E.
    + destruct (decide (true = false)); [discriminate | reflexivity].
    + destruct (decide (false = false)); [| contradiction].
      now rewrite <- app_assoc.
Qed.

Lemma denied_false r :
  denied r = false <->
  (let text_lower := strip (lower (text r)) in
   (text_lower ∉ DENY_LIST) /\
   ~ (contains text_lower "name" = true
      /\ (length (split text_lower) <= 2)%nat)).
Proof.
  unfold denied. cbv zeta.
  generalize DENY_LIST as deny. intros deny.
  generalize (strip (lower (text r))) as t. intros t.
  destruct (bool_decide (t ∈ deny)) eqn:E.
  - apply bool_decide_eq_true in E. split; [discriminate |]. intros [Hn _]. contradiction.
  - apply bool_decide_eq_false in E.
    destruct (contains t "name"); cbn [andb].
    + destruct (Z.leb_spec (Z.of_nat (length (split t))) 2).
      * split; [discriminate |]. intros [_ Hn]. exfalso. apply Hn. split; [reflexivity | lia].
      * split; [| reflexivity]. intros _. split; [exact E |]. intros [_ Hl]. lia.
    + split; [| reflexivity]. intros _. split; [exact E |]. intros [Hc _]. discriminate.
Qed.

(** C6. Every span of the output of [_filter_deny_list] has a
    lowercased, trimmed text that is not in the deny list, and a
    lowercased text that does not both contain "name" and have at most
    two words. The output is the input without the spans that fail one
    of the two tests, in the original order: every other span is kept. *)
Theorem filter_deny_list_spec (results : list DetectionResult) :
  Forall (fun r =>
            (lower (strip (text r)) ∉ DENY_LIST)
            /\ ~ (contains (lower (text r)) "name" = true
                  /\ (length (split (lower (text r))) <= 2)%nat))
         (_filter_deny_list results)
  /\ _filter_deny_list results = filter (fun r => denied r = false) results
  /\ (forall r, denied r = false <->
                (lower (strip (text r)) ∉ DENY_LIST)
                /\ ~ (contains (lower (text r)) "name" = true
                      /\ (length (split (lower (text r))) <= 2)%nat)).
Proof.
  assert (forall r, denied r = false <->
                    (lower (strip (text r)) ∉ DENY_LIST)
                    /\ ~ (contains (lower (text r)) "name" = true
                          /\ (length (split (lower (text r))) <= 2)%nat)) as Hd.
  { intros r. rewrite denied_false. cbv zeta.
    rewrite contains_strip, split_strip, lower_strip by reflexivity.
    reflexivity. }
  assert (_filter_deny_list results = filter (fun r => denied r = false) results) as E
      by (unfold _filter_deny_list; now rewrite filter_deny_list_fold).
  split; [| split; [exact E | exact Hd]].
  rewrite E. apply Forall_forall. intros r Hr.
  apply list_elem_of_filter in Hr as [Hr _]. now apply Hd.
Qed.

End DetectorFacts.

Section DetectFacts.
Import Dedup Detector.
Context `{RapidFuzz}.
Variable Pattern : Type.
Variable re_compile : string -> compiled Pattern.
Variable re_finditer : Pattern -> string -> list (Z * Z).
Variable _detect_with_presidio : string -> list string -> Q -> list DetectionResult.
Variable self_enabled_entities : list string.

(** C10. Overlap resolution is idempotent: its output is sorted by the
    key and each span starts at or after the end of the one before it,
    so [_deduplicate_results] gives its own output back unchanged; the
    second of the two consecutive calls in [detect] changes nothing. *)
Theorem dedup_idempotent (results : list DetectionResult) :
  let out := _deduplicate_results results in
  StronglySorted before_or_tied out
  /\ StronglySorted ends_before out
  /\ _deduplicate_results out = out
  /\ forall text custom_keywords match_mode fuzzy_threshold enabled_entities
            min_score,
      detect Pattern re_compile re_finditer _detect_with_presidio
             self_enabled_entities text custom_keywords match_mode
             fuzzy_threshold enabled_entities min_score
      = match detect_layers Pattern re_compile re_finditer _detect_with_presidio
                            self_enabled_entities text custom_keywords
                            match_mode fuzzy_threshold enabled_entities
                            min_score with
        | Raises => Raises
        | Returns layers =>
            Returns (_filter_deny_list (_deduplicate_results layers))
        end.
Proof.
  cbv zeta. destruct (dedup_output_fixed results) as (H1 & H2 & H3).
  split; [exact H1 | split; [exact H2 | split; [exact H3 |]]].
  intros. unfold detect. destruct (detect_layers _ _ _ _ _ _ _ _ _ _ _) as [layers |];
    [| reflexivity].
  destruct (dedup_output_fixed layers) as (_ & _ & E). cbv zeta in E.
  now rewrite E.
Qed.

End DetectFacts.


Section FuzzyFacts.
Import Py Detector.
Context `{RapidFuzz}.

Lemma meets_antitone score t1 t2 :
  t1 <= t2 -> meets score t2 = true -> meets score t1 = true.
Proof.
  unfold meets. rewrite !Qle_bool_iff. intros Ht Hs.
  eapply Qle_trans; [| exact Hs]. rewrite <- Zle_Qle. exact Ht.
Qed.

(** A word that matches some keyword at a threshold matches one at
    every lower threshold. *)
Lemma fuzzy_keywords_antitone word ws we keywords t1 t2 :
  t1 <= t2 ->
  is_Some (fuzzy_keywords word ws we keywords t2) ->
  is_Some (fuzzy_keywords word ws we keywords t1).
Proof.
  intros Ht. induction keywords as [| keyword rest IH]; simpl; [easy |].
  destruct (negb (truthy (strip keyword))); [exact IH |].
  destruct (meets (ratio _ _) t1) eqn:E1; [intros _; eexists; reflexivity |].
  destruct (meets (ratio _ _) t2) eqn:E2.
  { apply (meets_antitone _ _ _ Ht) in E2. congruence. }
  destruct (4 <? len keyword); [| exact IH].
  destruct (meets (partial_ratio _ _) t1) eqn:P1; [intros _; eexists; reflexivity |].
  destruct (meets (partial_ratio _ _) t2) eqn:P2; [| exact IH].
  apply (meets_antitone _ _ _ Ht) in P2. congruence.
Qed.


Lemma fuzzy_match_omap text keywords threshold :
  _fuzzy_match text keywords threshold
  = omap (fuzzy_word text keywords threshold) (Re.finditer word_pattern text).
Proof.
  unfold _fuzzy_match.
  enough (forall l acc,
             fold_left
               (fun results m =>
                  match fuzzy_keywords (Re.group0 text m) (Z.of_nat (Re.m_start m))
                          (Z.of_nat (Re.m_end m)) keywords threshold with
                  | Some r => results ++ [r]
                  | None => results
                  end) l acc
             = acc ++ omap (fuzzy_word text keywords threshold) l) as E
      by apply (E _ []).
  induction l as [| m l IH]; intros acc; simpl; [now rewrite app_nil_r |].
  rewrite IH. unfold fuzzy_word at 2.
  destruct (fuzzy_keywords _ _ _ _ _); [now rewrite <- app_assoc | reflexivity].
Qed.

Lemma omap_length_le {A B} (f g : A -> option B) (l : list A) :
  (forall x, is_Some (f x) -> is_Some (g x)) ->
  (length (omap f l) <= length (omap g l))%nat.
Proof.
  intros Hfg. induction l as [| x l IH]; simpl; [lia |].
  unfold omap in IH. destruct (f x) eqn:Ef.
  - destruct (Hfg x) as [y Hy]; [rewrite Ef; eauto |]. rewrite Hy. simpl. lia.
  - destruct (g x); simpl; lia.
Qed.

Lemma omap_length_bound {A B} (f : A -> option B) (l : list A) :
  (length (omap f l) <= length l)%nat.
Proof.
  induction l as [| x l IH]; simpl; [lia |].
  unfold omap in IH. destruct (f x); simpl; lia.
Qed.

(** C4. Fuzzy matching is monotonic in the threshold: for a fixed text
    and keyword list, a higher threshold never gives more spans. Every
    word of the text gives at most one span. *)
Theorem fuzzy_threshold_monotonic (text : string) (keywords : list string)
  (t1 t2 : Z) :
  t1 <= t2 ->
  (length (_fuzzy_match text keywords t2)
   <= length (_fuzzy_match text keywords t1))%nat
  /\ (length (_fuzzy_match text keywords t1)
      <= length (Re.finditer word_pattern text))%nat.
Proof.
  intros Ht. rewrite !fuzzy_match_omap. split.
  - apply omap_length_le. intros m. now apply fuzzy_keywords_antitone.
  - apply omap_length_bound.
Qed.

End FuzzyFacts.

Lemma fuzzy_threshold_monotonic_witness :
  80 <= 90 /\
  (length (@Detector._fuzzy_match (Fuzz.indel_fuzz (fun _ _ => 0%Q)) "jon john" ["john"] 90)
   <= length (@Detector._fuzzy_match (Fuzz.indel_fuzz (fun _ _ => 0%Q)) "jon john" ["john"] 80))%nat.
Proof.
  split; [lia |].
  apply (@fuzzy_threshold_monotonic (Fuzz.indel_fuzz (fun _ _ => 0%Q)) "jon john" ["john"] 80 90).
  lia.
Defined.

Section RegexFacts.
Import Py Detector.
Variable Pattern : Type.
Variable re_compile : string -> compiled Pattern.
Variable re_finditer : Pattern -> string -> list (Z * Z).

Let patterns_loop := regex_patterns Pattern re_compile re_finditer.

Lemma regex_patterns_skip text p l2 results :
  re_compile (strip p) = ReError ->
  patterns_loop text (p :: l2) results = patterns_loop text l2 results.
Proof.
  intros Hp. simpl. rewrite Hp. destruct (negb _); reflexivity.
Qed.

Lemma regex_patterns_app_skip text p l2 :
  re_compile (strip p) = ReError ->
  forall l1 results,
    patterns_loop text (l1 ++ p :: l2) results
    = patterns_loop text (l1 ++ l2) results.
Proof.
  intros Hp. induction l1 as [| q l1 IH]; intros results.
  - now apply regex_patterns_skip.
  - simpl. destruct (negb _); [apply IH |].
    destruct (re_compile (strip q)); [apply IH | apply IH | reflexivity].
Qed.

Lemma regex_patterns_returns text patterns :
  Forall (fun q => re_compile (strip q) <> OtherError) patterns ->
  forall results, exists out, patterns_loop text patterns results = Returns out.
Proof.
  induction 1 as [| q l Hq Hl IH]; intros results; simpl; [eauto |].
  destruct (negb _); [apply IH |].
  destruct (re_compile (strip q)); [apply IH | apply IH | contradiction].
Qed.

(** What the handler catches: a pattern that [re.compile] rejects with
    [re.error] is skipped, whatever the other patterns are. *)
Lemma regex_error_pattern_skipped (text : string) (l1 l2 : list string)
  (p : string) :
  re_compile (strip p) = ReError ->
  _regex_match Pattern re_compile re_finditer text (l1 ++ p :: l2)
  = _regex_match Pattern re_compile re_finditer text (l1 ++ l2).
Proof.
  intros Hp. unfold _regex_match. now rewrite (regex_patterns_app_skip text p l2 Hp).
Qed.

(** The matcher raises nothing when no pattern makes [re.compile] raise
    anything else than [re.error]. *)
Lemma regex_match_returns (text : string) (patterns : list string) :
  Forall (fun q => re_compile (strip q) <> OtherError) patterns ->
  exists results,
    _regex_match Pattern re_compile re_finditer text patterns = Returns results.
Proof. intros Hp. unfold _regex_match. now apply regex_patterns_returns. Qed.

End RegexFacts.

(** C9. The matcher does not skip every pattern that fails to compile.
    The repetition count of "a{99999999999}" makes [re.compile] raise
    [OverflowError], which the handler [except re.error] lets through:
    on the patterns "a", "a{99999999999}", "b" the matcher raises and
    the spans of the valid patterns are lost, where on the list without
    the pattern it returns a span for every match that the engine
    reports. The claim has the pattern skipped and no exception
    escaping. *)
Lemma regex_overflow_escapes :
  Detector._regex_match unit Detector.overflow_compile (fun _ _ => [(0, 1)]) "ab"
                        ["a"; "a{99999999999}"; "b"]
  = Detector.Raises
  /\ Detector._regex_match unit Detector.overflow_compile (fun _ _ => [(0, 1)]) "ab"
                           ["a"; "b"]
     = Detector.Returns
         [ {| text := "a"; entity_type := "CUSTOM_PATTERN"; start := 0; end_ := 1;
              score := 1; match_mode := "regex" |};
           {| text := "a"; entity_type := "CUSTOM_PATTERN"; start := 0; end_ := 1;
              score := 1; match_mode := "regex" |} ].
Proof. split; vm_compute; reflexivity. Qed.

Section RasterFacts.
Import Py Ocr.

Lemma word_is_match_iff `{RapidFuzz} available pii_terms fuzzy_threshold text :
  word_is_match available pii_terms fuzzy_threshold text = true
  <-> Exists (term_matches available fuzzy_threshold text) pii_terms.
Proof.
  induction pii_terms as [| term rest IH]; simpl.
  - split; [discriminate | intros E; inversion E].
  - rewrite Exists_cons, <- IH. unfold term_matches.
    destruct (contains (lower text) (lower term)); [tauto |].
    destruct (threshold_set fuzzy_threshold && available); [| intuition congruence].
    destruct (meets (ratio _ _) fuzzy_threshold); [tauto |].
    destruct (Z.ltb_spec 4 (len term)); [| intuition (congruence || lia)].
    destruct (meets (partial_ratio _ _) fuzzy_threshold); [tauto | intuition congruence].
Qed.



End RasterFacts.


Section CascadeFacts.
Import Py Ocr.
Context `{RapidFuzz} `{Fitz}.
Variable RAPIDFUZZ_AVAILABLE : bool.
Variable doc : Document.

(** The cascade stops after its [n]-th call. *)
Ltac stops_after n :=
  split; [reflexivity |]; exists n;
  split; [cbn [snd take]; now rewrite <- ?app_assoc | lia].

(** The fuzzy search runs, as the fifth call: the threshold [t] is set. *)
Ltac fuzzy_runs doc page t T :=
  cbn [first_nonempty]; unfold bind, ret;
  split;
  [ destruct (get_text doc _ page false) as [blocks' |]; [| reflexivity];
    destruct (fold_left _ blocks' []); reflexivity
  | exists 5%nat; split; [| split; [lia | intros _]];
    [ destruct (get_text doc _ page false) as [blocks' |];
      [destruct (fold_left _ blocks' []) |];
      cbn [snd nonempty take]; now rewrite <- !app_assoc
    | exists t; split; [reflexivity |];
      apply andb_true_iff in T as [T _]; cbn in T;
      apply negb_true_iff, Z.eqb_neq in T; exact T ] ].

(** C7. [search_text_with_fallback] is the cascade of the
    specification: the native search for the term as given, for the
    lowercased term, for the uppercased term, the character-level
    search, and the fuzzy search when a threshold is set, each run only
    when the ones before it found nothing; the answer is the one of the
    first strategy that finds a region, and the empty list when none
    does. The calls it makes on the page are a prefix of the five calls
    of the cascade, in that order, and the fifth, the one of the fuzzy
    search, is made only when a threshold is given. *)
Theorem search_cascade (page : nat) (term : string) (fuzzy_threshold : option Z)
  (h : list event) :
  let run := search_text_with_fallback RAPIDFUZZ_AVAILABLE doc page term fuzzy_threshold h in
  run = first_nonempty (strategies RAPIDFUZZ_AVAILABLE doc page term fuzzy_threshold) h
  /\ exists n : nat,
      snd run = h ++ take n (cascade_calls page term)
      /\ (1 <= n <= 5)%nat
      /\ (n = 5%nat -> exists t, fuzzy_threshold = Some t /\ t <> 0).
Proof.
  cbv zeta. unfold search_text_with_fallback, strategies, cascade_calls.
  unfold _character_level_search, _fuzzy_search_in_page.
  cbn [first_nonempty app]. unfold bind, call, ret.
  destruct (search_for doc h page term) as [| r1 a1]; cbn [nonempty fst snd];
    [| stops_after 1%nat].
  destruct (search_for doc _ page (lower term)) as [| r2 a2]; cbn [nonempty];
    [| stops_after 2%nat].
  destruct (search_for doc _ page (str_upper term)) as [| r3 a3]; cbn [nonempty];
    [| stops_after 3%nat].
  destruct (get_text doc _ page true) as [blocks |].
  - destruct (fold_left _ blocks []) as [| r4 a4]; cbn [nonempty];
      [| stops_after 4%nat].
    destruct fuzzy_threshold as [t |]; [| stops_after 4%nat].
    destruct (threshold_set (Some t) && RAPIDFUZZ_AVAILABLE) eqn:T;
      [| stops_after 4%nat].
    fuzzy_runs doc page t T.
  - cbn [nonempty].
    destruct fuzzy_threshold as [t |]; [| stops_after 4%nat].
    destruct (threshold_set (Some t) && RAPIDFUZZ_AVAILABLE) eqn:T;
      [| stops_after 4%nat].
    fuzzy_runs doc page t T.
Qed.

End CascadeFacts.

Section TraceFacts.
Import Py Ocr.
Context `{RapidFuzz} `{Fitz}.
Variable RAPIDFUZZ_AVAILABLE : bool.
Variable doc : Document.

Lemma appends_ret {A} P (a : A) : appends P (ret a).
Proof. intros h. exists []. split; [symmetry; apply app_nil_r | constructor]. Qed.

Lemma appends_call {A} (P : event -> Prop) e (answer : list event -> A) :
  P e -> appends P (call e answer).
Proof. intros He h. exists [e]. split; [reflexivity | now repeat constructor]. Qed.

Lemma appends_bind {A B} P (m : M A) (f : A -> M B) :
  appends P m -> (forall a, appends P (f a)) -> appends P (bind m f).
Proof.
  intros Hm Hf h. unfold bind. destruct (Hm h) as (t1 & E1 & F1).
  destruct (m h) as [a h1]. simpl in E1. subst h1.
  destruct (Hf a (h ++ t1)) as (t2 & E2 & F2).
  exists (t1 ++ t2). split; [now rewrite E2, app_assoc | now apply Forall_app].
Qed.

Lemma appends_for_each {A} P (l : list A) (body : A -> M unit) :
  (forall x, appends P (body x)) -> appends P (for_each l body).
Proof.
  intros Hb. induction l as [| x l IH]; simpl; [apply appends_ret |].
  apply appends_bind; [apply Hb | intros _; exact IH].
Qed.

Lemma appends_and_then {A B} P (m : M (outcome A)) (f : A -> M (outcome B)) :
  appends P m -> (forall a, appends P (f a)) -> appends P (and_then m f).
Proof.
  intros Hm Hf. apply appends_bind; [exact Hm |].
  intros [a |]; [apply Hf | apply appends_ret].
Qed.

Lemma appends_try_except P (m : M (outcome unit)) :
  appends P m -> appends P (try_except m).
Proof. intros Hm. apply appends_bind; [exact Hm | intros _; apply appends_ret]. Qed.

Ltac appends_step :=
  lazymatch goal with
  | |- appends _ (ret _) => apply appends_ret
  | |- appends _ (call _ _) => apply appends_call; (reflexivity || (split; reflexivity))
  | |- appends _ (bind _ _) => apply appends_bind; [| intros ?]
  | |- appends _ (and_then _ _) => apply appends_and_then; [| intros ?]
  | |- appends _ (try_except _) => apply appends_try_except
  | |- appends _ (for_each _ _) => apply appends_for_each; intros ?
  | |- appends _ (if ?b then _ else _) => destruct b
  | |- appends _ (match ?x with _ => _ end) => destruct x
  end.

Lemma search_appends page term thr :
  appends is_text (search_text_with_fallback RAPIDFUZZ_AVAILABLE doc page term thr).
Proof.
  unfold search_text_with_fallback, _character_level_search, _fuzzy_search_in_page.
  repeat appends_step.
Qed.

Lemma snd_bind {A B} (m : M A) (f : A -> M B) h :
  snd (bind m f h) = snd (f (fst (m h)) (snd (m h))).
Proof. unfold bind. now destruct (m h). Qed.

Lemma snd_call {A} e (answer : list event -> A) h :
  snd (call e answer h) = h ++ [e].
Proof. reflexivity. Qed.

(** The text layer of a page ends with the commit of its redactions. *)
Lemma text_layer_trace pii_terms method replace_text thr page h :
  exists t,
    snd (text_layer RAPIDFUZZ_AVAILABLE doc pii_terms method replace_text thr page h)
    = h ++ t ++ [EvApplyRedactions page]
    /\ Forall is_text t.
Proof.
  unfold text_layer. rewrite snd_bind.
  match goal with
  | |- context [for_each pii_terms ?body] =>
      assert (appends is_text (for_each pii_terms body)) as Ha
  end.
  { apply appends_for_each. intros term.
    apply appends_bind; [apply search_appends | intros areas].
    repeat appends_step. }
  destruct (Ha h) as (t & E & F). exists t. split; [| exact F].
  rewrite snd_call, E. now rewrite <- app_assoc.
Qed.

Lemma text_pass_trace pii_terms method replace_text thr (l : list nat) :
  forall h, exists t,
    snd (for_each l (text_layer RAPIDFUZZ_AVAILABLE doc pii_terms method
                                replace_text thr) h)
    = h ++ t
    /\ Forall is_text t
    /\ forall page, page ∈ l -> EvApplyRedactions page ∈ t.
Proof.
  induction l as [| p l IH]; intros h.
  - exists []. split; [symmetry; apply app_nil_r | split; [constructor |]].
    intros page Hp. inversion Hp.
  - cbn [for_each]. rewrite snd_bind.
    destruct (text_layer_trace pii_terms method replace_text thr p h) as (t1 & E1 & F1).
    rewrite E1.
    destruct (IH (h ++ t1 ++ [EvApplyRedactions p])) as (t2 & E2 & F2 & C2).
    exists ((t1 ++ [EvApplyRedactions p]) ++ t2).
    split; [| split].
    + etransitivity; [apply E2 |]. now rewrite <- !app_assoc.
    + apply Forall_app. split; [| exact F2].
      apply Forall_app. split; [exact F1 | now repeat constructor].
    + intros page Hp. apply elem_of_app. apply elem_of_cons in Hp as [-> | Hp].
      * left. apply elem_of_app. right. left.
      * right. now apply C2.
Qed.

Lemma image_layer_appends pii_terms method replace_text thr page :
  appends is_image
          (image_layer RAPIDFUZZ_AVAILABLE doc pii_terms method replace_text thr page).
Proof.
  unfold image_layer, replace_one_image. repeat appends_step.
Qed.

Lemma closing_appends :
  appends is_closing
          (bind (clear_metadata doc)
                (fun _ => bind (call EvSave (fun _ => tt))
                               (fun _ => call EvClose (fun _ => tt)))).
Proof. unfold clear_metadata. repeat appends_step. Qed.

(** C8. The two layers are not interleaved. The calls a run of
    [legal_redact_pdf] makes on a document it has just opened are, in
    this order: the calls of the text layer, among them the commit of
    the text redactions of every page; then the calls of the image
    layer, which list, extract, process and replace the embedded images;
    then the calls that clear the metadata, save and close. So every
    call of the text layer, on whatever page, comes before every call of
    the image layer. *)
Theorem text_pass_before_image_pass (pii_terms : list string)
  (method replace_text : string) (fuzzy_threshold : option Z) :
  let trace :=
    snd (legal_redact_pdf RAPIDFUZZ_AVAILABLE doc pii_terms method replace_text
                          fuzzy_threshold []) in
  (exists text_pass image_pass closing,
      trace = text_pass ++ image_pass ++ closing
      /\ Forall is_text text_pass
      /\ Forall is_image image_pass
      /\ Forall is_closing closing
      /\ forall page, (page < page_count doc)%nat ->
                      EvApplyRedactions page ∈ text_pass)
  /\ forall i j e1 e2,
      trace !! i = Some e1 -> trace !! j = Some e2 ->
      is_text e1 -> is_image e2 -> (i < j)%nat.
Proof.
  cbv zeta.
  assert (exists text_pass image_pass closing,
             snd (legal_redact_pdf RAPIDFUZZ_AVAILABLE doc pii_terms method
                                   replace_text fuzzy_threshold [])
             = text_pass ++ image_pass ++ closing
             /\ Forall is_text text_pass
             /\ Forall is_image image_pass
             /\ Forall is_closing closing
             /\ forall page, (page < page_count doc)%nat ->
                             EvApplyRedactions page ∈ text_pass) as Hd.
  { unfold legal_redact_pdf. rewrite snd_bind.
    destruct (text_pass_trace pii_terms method replace_text fuzzy_threshold
                              (pages doc) []) as (t1 & E1 & F1 & C1).
    rewrite E1. cbn [app]. rewrite snd_bind.
    assert (appends is_image
              (for_each (pages doc)
                 (image_layer RAPIDFUZZ_AVAILABLE doc pii_terms method replace_text
                              fuzzy_threshold))) as Hi
        by (apply appends_for_each; intros p; apply image_layer_appends).
    destruct (Hi t1) as (t2 & E2 & F2). rewrite E2.
    destruct (closing_appends (t1 ++ t2)) as (t3 & E3 & F3).
    exists t1, t2, t3. split; [| split; [exact F1 | split; [exact F2 | split; [exact F3 |]]]].
    - etransitivity; [apply E3 |]. now rewrite <- app_assoc.
    - intros page Hp. apply C1. unfold pages. apply elem_of_seq. lia. }
  split; [exact Hd |].
  destruct Hd as (t1 & t2 & t3 & E & F1 & F2 & F3 & _).
  rewrite E. intros i j e1 e2 Hi Hj H1 H2.
  assert (forall e, is_image e -> ~ is_text e) as Hdisj
      by (intros []; unfold is_image, is_text; simpl; congruence).
  destruct (Nat.lt_ge_cases i (length t1)) as [Hi1 | Hi1].
  - destruct (Nat.lt_ge_cases j (length t1)) as [Hj1 | Hj1]; [| lia].
    rewrite lookup_app_l in Hj by exact Hj1.
    rewrite Forall_forall in F1. exfalso. apply (Hdisj e2 H2), F1.
    eapply list_elem_of_lookup_2; eauto.
  - rewrite lookup_app_r in Hi by exact Hi1. exfalso.
    apply list_elem_of_lookup_2 in Hi. apply elem_of_app in Hi as [Hi | Hi].
    + rewrite Forall_forall in F2. apply (Hdisj e1 (F2 _ Hi) H1).
    + rewrite Forall_forall in F3. destruct (F3 _ Hi) as [Hn _].
      unfold is_text in H1. congruence.
Qed.

End TraceFacts.

(** * Further properties of the code *)

Section DedupMore.
Import Dedup.

Lemma sorted_elem x l : x ∈ sorted l <-> x ∈ l.
Proof.
  split; intros Hx.
  - eapply elem_of_Permutation_proper; [apply sorted_perm | exact Hx].
  - eapply elem_of_Permutation_proper; [symmetry; apply sorted_perm | exact Hx].
Qed.

(** X1. Every span that the overlap resolution keeps is a span it was given,
    and it keeps no more spans than it was given. *)
Theorem dedup_keeps_input_spans (results : list DetectionResult) :
  (forall r, r ∈ _deduplicate_results results -> r ∈ results)
  /\ (length (_deduplicate_results results) <= length results)%nat.
Proof.
  rewrite dedup_greedy. split.
  - intros r Hr. apply greedy_accept_elem in Hr. now apply sorted_elem.
  - rewrite (Permutation_length (sorted_perm results)).
    generalize (sorted results) (-1). intros l.
    induction l as [| r l IH]; intros c; simpl; [lia |].
    destruct (Z.geb (start r) c); simpl; [specialize (IH (end_ r)) | specialize (IH c)]; lia.
Qed.

Lemma greedy_accept_maximal l :
  StronglySorted before_or_tied l ->
  forall c x, x ∈ l -> proper x ->
    x ∈ greedy_accept c l
    \/ (exists a, a ∈ greedy_accept c l /\ overlaps a x = true)
    \/ start x < c.
Proof.
  induction 1 as [| r l Hs IH Hr]; intros c x Hx Hp; [inversion Hx |].
  cbn [greedy_accept]. rewrite Z.geb_leb.
  apply elem_of_cons in Hx as [-> | Hx].
  - destruct (Z.leb_spec c (start r)); [left; left | right; right; lia].
  - destruct (Z.leb_spec c (start r)).
    + destruct (IH (end_ r) x Hx Hp) as [H1 | [(a & Ha & Hov) | H3]].
      * left. now right.
      * right. left. exists a. split; [now right | exact Hov].
      * right. left. exists r. split; [left |].
        rewrite Forall_forall in Hr. apply Hr, before_or_tied_start in Hx.
        unfold overlaps, proper in *. apply Z.ltb_lt. lia.
    + destruct (IH c x Hx Hp) as [H1 | [(a & Ha & Hov) | H3]]; eauto.
Qed.

(** X2. The resolution drops nothing needlessly: a span of the input with a
    proper range (0 <= start < end) that is not kept overlaps a span
    that is kept. *)
Theorem dedup_maximal (results : list DetectionResult) (x : DetectionResult) :
  x ∈ results -> 0 <= start x < end_ x ->
  x ∈ _deduplicate_results results
  \/ exists a, a ∈ _deduplicate_results results /\ overlaps a x = true.
Proof.
  intros Hx Hp. rewrite dedup_greedy.
  destruct (greedy_accept_maximal _ (sorted_sorted results) (-1) x) as [H | [H | H]];
    [now apply sorted_elem | exact Hp | now left | now right | lia].
Qed.

End DedupMore.

Lemma dedup_maximal_witness :
  Examples.span_b ∈ Dedup._deduplicate_results [Examples.span_b; Examples.span_a]
  \/ exists a, a ∈ Dedup._deduplicate_results [Examples.span_b; Examples.span_a]
               /\ Dedup.overlaps a Examples.span_b = true.
Proof.
  apply (dedup_maximal [Examples.span_b; Examples.span_a] Examples.span_b).
  - left.
  - simpl. lia.
Defined.

Section DetectMore.
Import Dedup Detector.
Context `{RapidFuzz}.
Variable Pattern : Type.
Variable re_compile : string -> compiled Pattern.
Variable re_finditer : Pattern -> string -> list (Z * Z).
Variable _detect_with_presidio : string -> list string -> Q -> list DetectionResult.
Variable self_enabled_entities : list string.

Lemma StronglySorted_filter_keep {A} (R : A -> A -> Prop) (P : A -> Prop)
  `{forall x, Decision (P x)} (l : list A) :
  StronglySorted R l -> StronglySorted R (filter P l).
Proof.
  induction 1 as [| x l Hs IH Hx]; [constructor |].
  rewrite filter_cons. destruct (decide (P x)); [| exact IH].
  constructor; [exact IH |].
  apply Forall_forall. intros y Hy. apply list_elem_of_filter in Hy as [_ Hy].
  rewrite Forall_forall in Hx. now apply Hx.
Qed.

(** X3. What [detect] returns: spans of the three layers, of which no two
    overlap, in the order of their starts, none with a denied text. *)
Theorem detect_output_invariant text custom_keywords match_mode fuzzy_threshold
  enabled_entities min_score (out : list DetectionResult) :
  detect Pattern re_compile re_finditer _detect_with_presidio
         self_enabled_entities text custom_keywords match_mode
         fuzzy_threshold enabled_entities min_score = Returns out ->
  no_overlap out
  /\ StronglySorted ends_before out
  /\ Forall (fun r => denied r = false) out
  /\ exists layers,
      detect_layers Pattern re_compile re_finditer _detect_with_presidio
                    self_enabled_entities text custom_keywords match_mode
                    fuzzy_threshold enabled_entities min_score = Returns layers
      /\ forall r, r ∈ out -> r ∈ layers.
Proof.
  unfold detect.
  destruct (detect_layers _ _ _ _ _ _ _ _ _ _ _) as [layers |]; [| discriminate].
  intros [= <-].
  destruct (dedup_output_fixed layers) as (_ & Hc & E). cbv zeta in E, Hc.
  rewrite E.
  assert (_filter_deny_list (_deduplicate_results layers)
          = filter (fun r => denied r = false) (_deduplicate_results layers)) as ->
      by (unfold _filter_deny_list; now rewrite filter_deny_list_fold).
  pose proof (StronglySorted_filter_keep _ (fun r => denied r = false) _ Hc) as Hs.
  split; [now apply chain_no_overlap | split; [exact Hs | split]].
  - apply Forall_forall. intros r Hr. now apply list_elem_of_filter in Hr as [Hr _].
  - exists layers. split; [reflexivity |]. intros r Hr.
    apply list_elem_of_filter in Hr as [_ Hr].
    rewrite dedup_greedy in Hr. apply greedy_accept_elem in Hr.
    now apply sorted_elem.
Qed.

End DetectMore.

Lemma detect_output_invariant_witness :
  let out := [ {| text := "KISHOR KUMAR"; entity_type := "PERSON";
                  start := 13; end_ := 25; score := 85 # 100;
                  match_mode := "label_heuristic" |} ] in
  Dedup.no_overlap out
  /\ StronglySorted Dedup.ends_before out
  /\ Forall (fun r => Detector.denied r = false) out
  /\ exists layers,
      @Detector.detect_layers (Fuzz.indel_fuzz (fun _ _ => 0%Q)) unit
        Detector.paren_compile (fun _ _ => []) (fun _ _ _ => []) ["PERSON"]
        "Father Name  KISHOR KUMAR" (Some ["father"]) Detector.EXACT 85 None
        (6 # 10) = Detector.Returns layers
      /\ forall r, r ∈ out -> r ∈ layers.
Proof.
  cbv zeta.
  apply (@detect_output_invariant (Fuzz.indel_fuzz (fun _ _ => 0%Q)) unit
           Detector.paren_compile (fun _ _ => []) (fun _ _ _ => []) ["PERSON"]
           "Father Name  KISHOR KUMAR" (Some ["father"]) Detector.EXACT 85 None
           (6 # 10)).
  vm_compute. reflexivity.
Defined.

Section FindMore.
Import Py.

Lemma drop_String n c s : drop (S n) (String c s) = drop n s.
Proof. reflexivity. Qed.

Lemma drop_nil n : drop n "" = "".
Proof. now destruct n. Qed.

Lemma drop_drop n : forall m s, drop n (drop m s) = drop (m + n) s.
Proof.
  intros m. induction m as [| m IH]; intros s; [reflexivity |].
  destruct s as [| c s]; [now rewrite !drop_nil | apply IH].
Qed.

(** An index that [find_at] reports is an occurrence, and no occurrence
    lies before it. *)
Lemma find_at_occurrence s needle :
  forall i, find_at s needle i <> -1 ->
            startswith (drop (Z.to_nat (find_at s needle i - i)) s) needle = true.
Proof.
  induction s as [| c s IH]; intros i; rewrite find_at_eq.
  - destruct (startswith "" needle) eqn:E; [| congruence].
    intros _. now rewrite Z.sub_diag.
  - destruct (startswith (String c s) needle) eqn:E.
    + intros _. now rewrite Z.sub_diag.
    + intros Hn. pose proof (IH (i + 1) Hn) as Hs.
      destruct (find_at_range s needle (i + 1)) as [Hr | Hr]; [congruence |].
      replace (Z.to_nat (find_at s needle (i + 1) - i))
        with (S (Z.to_nat (find_at s needle (i + 1) - (i + 1)))) by lia.
      exact Hs.
Qed.

Lemma find_at_first s needle :
  forall i d, 0 <= i -> startswith (drop d s) needle = true ->
              find_at s needle i <> -1 /\ find_at s needle i <= i + Z.of_nat d.
Proof.
  induction s as [| c s IH]; intros i d Hi Hd; rewrite find_at_eq.
  - rewrite drop_nil in Hd. rewrite Hd. lia.
  - destruct (startswith (String c s) needle) eqn:E; [lia |].
    destruct d as [| d]; [cbn [drop] in Hd; congruence |].
    rewrite drop_String in Hd. destruct (IH (i + 1) d ltac:(lia) Hd). lia.
Qed.

Lemma find_occurrence s needle pos :
  0 <= pos -> find s needle pos <> -1 ->
  startswith (drop (Z.to_nat (find s needle pos)) s) needle = true.
Proof.
  intros Hp Hn. destruct (find_range s needle pos Hp) as [E | E]; [congruence |].
  revert Hn E. unfold find.
  destruct (pos <? 0) eqn:E0; [apply Z.ltb_lt in E0; lia |].
  destruct (len s <? pos) eqn:E1; [congruence |].
  intros Hn E. apply find_at_occurrence in Hn. rewrite drop_drop in Hn.
  replace (Z.to_nat pos + Z.to_nat (find_at (drop (Z.to_nat pos) s) needle pos - pos))%nat
    with (Z.to_nat (find_at (drop (Z.to_nat pos) s) needle pos)) in Hn by lia.
  exact Hn.
Qed.

Lemma find_first s needle pos (i : nat) :
  0 <= pos <= Z.of_nat i -> Z.of_nat i <= len s ->
  startswith (drop i s) needle = true ->
  find s needle pos <> -1 /\ find s needle pos <= Z.of_nat i.
Proof.
  intros Hp Hi Hs. unfold find.
  destruct (pos <? 0) eqn:E0; [apply Z.ltb_lt in E0; lia |].
  destruct (len s <? pos) eqn:E1; [apply Z.ltb_lt in E1; lia |].
  replace i with (Z.to_nat pos + (i - Z.to_nat pos))%nat in Hs by lia.
  rewrite <- drop_drop in Hs.
  destruct (find_at_first _ _ pos _ ltac:(lia) Hs). lia.
Qed.

Lemma substring_drop n : forall m s, substring n m s = substring 0 m (drop n s).
Proof.
  induction n as [| n IH]; intros m s; [reflexivity |].
  destruct s as [| c s]; [destruct m; reflexivity |].
  cbn [drop]. rewrite <- IH. now destruct m.
Qed.

Lemma slice_inside s i j :
  0 <= i <= j -> j <= len s ->
  slice s i j = substring (Z.to_nat i) (Z.to_nat (j - i)) s.
Proof.
  intros Hi Hj. unfold slice, clamp.
  destruct (i <? 0) eqn:Ei; [apply Z.ltb_lt in Ei; lia |].
  destruct (j <? 0) eqn:Ej; [apply Z.ltb_lt in Ej; lia |].
  now rewrite !Z.min_l by lia.
Qed.

Lemma lower_char_idem c : lower_char (lower_char c) = lower_char c.
Proof. destruct c as [[] [] [] [] [] [] [] []]; reflexivity. Qed.

Lemma lower_idem s : lower (lower s) = lower s.
Proof. induction s; cbn; [reflexivity | now rewrite lower_char_idem, IHs]. Qed.

Lemma truthy_lower s : truthy (lower s) = truthy s.
Proof. now destruct s. Qed.

End FindMore.

Section ExactMore.
Import Py Detector.

(** The accumulator of the loops only grows at its end. *)
Lemma exact_loop_acc input text_lower keyword keyword_lower n :
  forall pos results,
    exact_loop n input text_lower keyword keyword_lower pos results
    = results ++ exact_loop n input text_lower keyword keyword_lower pos [].
Proof.
  induction n as [| n IH]; intros pos results; cbn [exact_loop].
  - now rewrite app_nil_r.
  - destruct (find text_lower keyword_lower pos =? -1); [now rewrite app_nil_r |].
    rewrite IH, (IH _ ([] ++ _)). now rewrite app_assoc.
Qed.

Lemma exact_keywords_acc input text_lower keywords :
  forall results,
    exact_keywords input text_lower keywords results
    = results ++ exact_keywords input text_lower keywords [].
Proof.
  induction keywords as [| keyword rest IH]; intros results; cbn [exact_keywords].
  - now rewrite app_nil_r.
  - destruct (negb (truthy (strip keyword))); [apply IH |].
    rewrite IH, (IH (exact_loop _ _ _ _ _ _ [])), exact_loop_acc.
    now rewrite app_assoc.
Qed.

Lemma exact_match_concat (input : string) (k1 k2 : list string) :
  _exact_match input (k1 ++ k2) = _exact_match input k1 ++ _exact_match input k2.
Proof.
  unfold _exact_match. induction k1 as [| keyword rest IH]; [reflexivity |].
  cbn [app exact_keywords]. destruct (negb (truthy (strip keyword))); [exact IH |].
  rewrite exact_keywords_acc, (exact_keywords_acc _ _ rest (exact_loop _ _ _ _ _ _ _)).
  now rewrite IH, app_assoc.
Qed.

Lemma exact_match_blank (input keyword : string) :
  strip keyword = "" -> _exact_match input [keyword] = [].
Proof. intros E. unfold _exact_match. cbn [exact_keywords]. now rewrite E. Qed.

(** X4. The matches of a list of keywords are the matches of its
    keywords, one keyword after the other: the matches of the first
    keyword in the order of the text, then those of the second, and so
    on; a keyword that is empty or all whitespace has none, and an
    empty list of keywords has none. *)
Theorem exact_match_app (input : string) (k1 k2 : list string) :
  _exact_match input (k1 ++ k2) = _exact_match input k1 ++ _exact_match input k2
  /\ _exact_match input [] = []
  /\ (forall keyword, strip keyword = "" ->
        _exact_match input (keyword :: k2) = _exact_match input k2).
Proof.
  split; [apply exact_match_concat | split; [reflexivity |]].
  intros keyword E. change (keyword :: k2) with ([keyword] ++ k2).
  now rewrite exact_match_concat, exact_match_blank.
Qed.

Lemma exact_loop_occurrences input keyword needle n :
  forall pos, 0 <= pos ->
    Forall (fun r => 0 <= start r
                     /\ startswith (drop (Z.to_nat (start r)) (lower input)) needle
                        = true
                     /\ r = exact_result input keyword (start r))
           (exact_loop n input (lower input) keyword needle pos []).
Proof.
  induction n as [| n IH]; intros pos Hpos; cbn [exact_loop]; [constructor |].
  destruct (find (lower input) needle pos =? -1) eqn:E; [constructor |].
  apply Z.eqb_neq in E. rewrite exact_loop_acc.
  pose proof (find_fits _ _ _ Hpos E) as [H1 _].
  apply Forall_app. split; [| apply IH; lia].
  constructor; [| constructor]. cbn [exact_result start].
  split; [lia | split; [now apply find_occurrence | reflexivity]].
Qed.

(** X5. Every span of the exact matcher comes from an occurrence: it is
    the span that the matcher builds for one of the keywords, a keyword
    that is not blank, at an index of the lowercased text at which the
    lowercased, trimmed keyword occurs. So it ends [len(keyword)] after
    that index, and its text is the text cut at the two. *)
Theorem exact_match_spans_are_occurrences (input : string)
  (keywords : list string) :
  Forall (fun r => exists keyword,
            keyword ∈ keywords
            /\ truthy (strip keyword) = true
            /\ 0 <= start r
            /\ startswith (drop (Z.to_nat (start r)) (lower input))
                          (strip (lower keyword)) = true
            /\ r = exact_result input keyword (start r))
         (_exact_match input keywords).
Proof.
  induction keywords as [| keyword rest IH]; [constructor |].
  change (keyword :: rest) with ([keyword] ++ rest). rewrite exact_match_concat.
  apply Forall_app. split.
  - unfold _exact_match. cbn [exact_keywords].
    destruct (truthy (strip keyword)) eqn:Ht; cbn [negb]; [| constructor].
    eapply Forall_impl; [apply exact_loop_occurrences; lia |].
    intros r (H0 & Hs & Hr). exists keyword.
    split; [left | split; [exact Ht | split; [exact H0 | split; [exact Hs | exact Hr]]]].
  - eapply Forall_impl; [exact IH |]. intros r (k & Hin & Hm).
    exists k. split; [now right | exact Hm].
Qed.

Lemma exact_loop_finds input keyword needle n (i : nat) :
  truthy needle = true ->
  startswith (drop i (lower input)) needle = true ->
  forall pos, 0 <= pos <= Z.of_nat i -> len (lower input) + 2 - pos <= Z.of_nat n ->
    exact_result input keyword (Z.of_nat i)
    ∈ exact_loop n input (lower input) keyword needle pos [].
Proof.
  intros Ht Hs.
  assert (Z.of_nat i + len needle <= len (lower input)) as Hfit.
  { apply startswith_len in Hs. unfold len in *. rewrite length_drop in Hs.
    apply truthy_len in Ht. unfold len in Ht. lia. }
  induction n as [| n IH]; intros pos Hpos Hn.
  - pose proof (len_nonneg needle). lia.
  - cbn [exact_loop].
    destruct (find_first (lower input) needle pos i) as [Hf Hle];
      [lia | pose proof (len_nonneg needle); lia | exact Hs |].
    apply Z.eqb_neq in Hf. rewrite Hf. rewrite exact_loop_acc.
    apply Z.eqb_neq in Hf.
    destruct (find_range (lower input) needle pos ltac:(lia)) as [E | E]; [congruence |].
    destruct (Z.eq_dec (find (lower input) needle pos) (Z.of_nat i)) as [-> | Hne].
    + apply elem_of_app. left. left.
    + apply elem_of_app. right. apply IH; lia.
Qed.

(** X6. Exact matching reports every occurrence: wherever the lowercased,
    trimmed keyword occurs in the lowercased text, overlapping another
    occurrence or not, there is a span that starts there. *)
Theorem exact_match_reports_every_occurrence (input : string)
  (keywords : list string) (keyword : string) (i : nat) :
  keyword ∈ keywords ->
  truthy (strip keyword) = true ->
  startswith (drop i (lower input)) (strip (lower keyword)) = true ->
  exact_result input keyword (Z.of_nat i) ∈ _exact_match input keywords.
Proof.
  intros Hin Ht Hs. apply list_elem_of_split in Hin as (k1 & k2 & ->).
  rewrite exact_match_concat. apply elem_of_app. right.
  change (keyword :: k2) with ([keyword] ++ k2). rewrite exact_match_concat.
  apply elem_of_app. left. unfold _exact_match. cbn [exact_keywords].
  rewrite Ht. cbn [negb]. apply exact_loop_finds.
  - now rewrite <- lower_strip, truthy_lower.
  - exact Hs.
  - lia.
  - unfold len. lia.
Qed.

Lemma exact_loop_ranges input keyword needle n :
  forall pos,
    map (fun r => (start r, end_ r))
        (exact_loop n (lower input) (lower input) keyword needle pos [])
    = map (fun r => (start r, end_ r))
          (exact_loop n input (lower input) keyword needle pos []).
Proof.
  induction n as [| n IH]; intros pos; cbn [exact_loop]; [reflexivity |].
  destruct (find (lower input) needle pos =? -1); [reflexivity |].
  rewrite exact_loop_acc, (exact_loop_acc input). rewrite !map_app.
  now rewrite IH.
Qed.

Lemma exact_loop_starts input text_lower keyword needle n :
  forall pos,
    map start (exact_loop n input text_lower (lower keyword) needle pos [])
    = map start (exact_loop n input text_lower keyword needle pos []).
Proof.
  induction n as [| n IH]; intros pos; cbn [exact_loop]; [reflexivity |].
  destruct (find text_lower needle pos =? -1); [reflexivity |].
  rewrite exact_loop_acc, (exact_loop_acc _ _ keyword). rewrite !map_app.
  now rewrite IH.
Qed.

(** X7. Where the exact matcher finds its spans does not depend on case:
    with the keywords lowercased the spans start at the same indices, in
    the same order, and with the text lowercased they have the same
    ranges. (The end of a span is [len(keyword)] after its start, in the
    keyword as it was given.) *)
Theorem exact_match_case_insensitive (input : string) (keywords : list string) :
  map start (_exact_match input (map lower keywords))
  = map start (_exact_match input keywords)
  /\ map (fun r => (start r, end_ r)) (_exact_match (lower input) keywords)
     = map (fun r => (start r, end_ r)) (_exact_match input keywords).
Proof.
  split.
  - induction keywords as [| keyword rest IH]; [reflexivity |].
    cbn [map]. change (lower keyword :: map lower rest)
      with ([lower keyword] ++ map lower rest).
    change (keyword :: rest) with ([keyword] ++ rest).
    rewrite !exact_match_concat, !map_app, IH. f_equal.
    unfold _exact_match. cbn [exact_keywords].
    rewrite lower_idem, <- (lower_strip keyword), truthy_lower.
    destruct (negb (truthy (strip keyword))); [reflexivity |].
    apply exact_loop_starts.
  - induction keywords as [| keyword rest IH]; [reflexivity |].
    change (keyword :: rest) with ([keyword] ++ rest).
    rewrite !exact_match_concat, !map_app, IH. f_equal.
    unfold _exact_match. cbn [exact_keywords].
    destruct (negb (truthy (strip keyword))); [reflexivity |].
    rewrite (lower_idem input). apply exact_loop_ranges.
Qed.

End ExactMore.

Lemma exact_match_reports_every_occurrence_witness :
  Detector.exact_result "aaa" "AA" (Z.of_nat 1) ∈ Detector._exact_match "aaa" ["AA"].
Proof.
  apply (exact_match_reports_every_occurrence "aaa" ["AA"] "AA" 1);
    [left | reflexivity | reflexivity].
Defined.

Section EngineFacts.
Import Py Re.

Lemma get_Some_lt t : forall pos c, String.get pos t = Some c -> (pos < String.length t)%nat.
Proof.
  induction t as [| a t IH]; intros pos c; cbn; [discriminate |].
  destruct pos as [| pos]; [lia |]. intros Hg. apply IH in Hg. lia.
Qed.

Lemma startswith_ci_fits s : forall lit,
  startswith_ci s lit = true -> (String.length lit <= String.length s)%nat.
Proof.
  induction s as [| c s IH]; intros [| a lit]; cbn; try discriminate; try lia.
  rewrite andb_true_iff. intros [_ Hs]. apply IH in Hs. lia.
Qed.

Lemma run_length_le p s : (run_length p s <= String.length s)%nat.
Proof. induction s as [| c s IH]; cbn; [lia |]. destruct (p c); cbn; lia. Qed.

Lemma rep_down_some {A} n lo pos (k : nat -> option A) res :
  rep_down n lo pos k = Some res ->
  exists m, (lo <= m <= n)%nat /\ k (pos + m)%nat = Some res.
Proof.
  induction n as [| n IH]; cbn [rep_down].
  - destruct (Nat.ltb_spec 0 lo); [discriminate |].
    destruct (k (pos + 0)%nat) eqn:E; [| discriminate].
    intros [= <-]. exists 0%nat. split; [lia | exact E].
  - destruct (Nat.ltb_spec (S n) lo); [discriminate |].
    destruct (k (pos + S n)%nat) eqn:E.
    + intros [= <-]. exists (S n). split; [lia | exact E].
    + intros Hr. destruct (IH Hr) as (m & Hm & Hk). exists m. split; [lia | exact Hk].
Qed.

(** The matcher only moves forward, and stays in the text: when it
    succeeds, its continuation was called at a position at or after the
    one it started from, with a group that lies in the text. *)
Lemma run_bounds r :
  forall A t pos cap (k : nat -> capture -> option A) res,
    (pos <= String.length t)%nat -> cap_ok t cap ->
    run r t pos cap k = Some res ->
    exists pos' cap',
      (pos <= pos' <= String.length t)%nat /\ cap_ok t cap'
      /\ k pos' cap' = Some res.
Proof.
  induction r as [p | s | a IHa b IHb | a IHa b IHb | a IHa | p lo hi | a IHa
                  | a IHa | |];
    intros A t pos cap k res Hpos Hcap; cbn [run].
  - destruct (String.get pos t) as [c |] eqn:G; [| discriminate].
    apply get_Some_lt in G. destruct (p c); [| discriminate].
    intros Hk. exists (S pos), cap. split; [lia | split; [exact Hcap | exact Hk]].
  - destruct (startswith_ci (drop pos t) s) eqn:E; [| discriminate].
    apply startswith_ci_fits in E. rewrite length_drop in E.
    intros Hk. exists (pos + String.length s)%nat, cap.
    split; [lia | split; [exact Hcap | exact Hk]].
  - intros Hr. apply IHa in Hr as (p1 & c1 & H1 & Hc1 & Hr); [| exact Hpos | exact Hcap].
    apply IHb in Hr as (p2 & c2 & H2 & Hc2 & Hr); [| lia | exact Hc1].
    exists p2, c2. split; [lia | split; [exact Hc2 | exact Hr]].
  - destruct (run a t pos cap k) eqn:E.
    + intros [= <-]. now apply IHa in E.
    + intros Hr. now apply IHb in Hr.
  - destruct (run a t pos cap k) eqn:E.
    + intros [= <-]. now apply IHa in E.
    + intros Hk. exists pos, cap. split; [lia | split; [exact Hcap | exact Hk]].
  - intros Hr. apply rep_down_some in Hr as (m & Hm & Hk).
    pose proof (run_length_le p (drop pos t)) as Hl. rewrite length_drop in Hl.
    exists (pos + m)%nat, cap. split; [| split; [exact Hcap | exact Hk]].
    destruct hi as [h |]; lia.
  - intros Hr. apply IHa in Hr as (p1 & c1 & H1 & Hc1 & Hr); [| exact Hpos | exact Hcap].
    exists p1, (Some (pos, p1)). split; [lia | split; [cbn; lia | exact Hr]].
  - destruct (run a t pos cap (fun _ cap' => Some cap')) as [cap' |] eqn:E; [| discriminate].
    apply IHa in E as (p1 & c1 & H1 & Hc1 & [= ->]); [| exact Hpos | exact Hcap].
    intros Hk. exists pos, cap'. split; [lia | split; [exact Hc1 | exact Hk]].
  - destruct (at_boundary t pos); [| discriminate].
    intros Hk. exists pos, cap. split; [lia | split; [exact Hcap | exact Hk]].
  - destruct (at_eol t pos); [| discriminate].
    intros Hk. exists pos, cap. split; [lia | split; [exact Hcap | exact Hk]].
Qed.

Lemma match_at_ok r t pos m :
  (pos <= String.length t)%nat -> match_at r t pos = Some m ->
  m_start m = pos /\ match_ok t m.
Proof.
  intros Hpos Hm. unfold match_at in Hm.
  apply run_bounds in Hm as (p1 & c1 & H1 & Hc1 & [= <-]); [| exact Hpos | exact I].
  unfold match_ok. cbn. repeat split; (lia || exact Hc1).
Qed.

Lemma scan_ok r t n : forall pos, Forall (match_ok t) (scan n r t pos).
Proof.
  induction n as [| n IH]; intros pos; cbn [scan]; [constructor |].
  destruct (Nat.ltb_spec (String.length t) pos); [constructor |].
  destruct (match_at r t pos) as [m |] eqn:E; [| apply IH].
  constructor; [| apply IH]. apply match_at_ok in E; [tauto | lia].
Qed.

Lemma finditer_ok r t : Forall (match_ok t) (finditer r t).
Proof. apply scan_ok. Qed.

End EngineFacts.

Section TokenFacts.
Import Py Re Detector.

Lemma run_length_all p s : forall m,
  (m <= run_length p s)%nat -> all_chars p (substring 0 m s) = true.
Proof.
  induction s as [| c s IH]; intros [| m]; cbn [run_length substring all_chars];
    try reflexivity.
  destruct (p c) eqn:E; [| lia]. intros Hm. cbn [andb]. apply IH. lia.
Qed.

(** A match of [\b\w+\b] is a run of word characters that is not empty
    and lies in the text. *)
Lemma word_match_ok t pos m :
  match_at word_pattern t pos = Some m ->
  (m_start m < m_end m)%nat
  /\ all_chars isword (group0 t m) = true.
Proof.
  unfold match_at, word_pattern. cbn [run].
  destruct (at_boundary t pos); [| discriminate].
  intros Hr. apply rep_down_some in Hr as (k & Hk & Hm).
  destruct (at_boundary t (pos + k)); [| discriminate].
  injection Hm as <-. unfold group0. cbn [m_start m_end].
  split; [lia |]. rewrite substring_drop. apply run_length_all.
  replace (pos + k - pos)%nat with k by lia. lia.
Qed.

Lemma scan_words t n : forall pos,
  Forall (fun m => (m_start m < m_end m)%nat /\ all_chars isword (group0 t m) = true)
         (scan n word_pattern t pos).
Proof.
  induction n as [| n IH]; intros pos; cbn [scan]; [constructor |].
  destruct (String.length t <? pos)%nat; [constructor |].
  destruct (match_at word_pattern t pos) as [m |] eqn:E; [| apply IH].
  constructor; [now apply word_match_ok in E | apply IH].
Qed.

End TokenFacts.

Section FuzzySpans.
Import Py Re Detector.
Context `{RapidFuzz}.

Lemma meets_score s threshold :
  meets s threshold = true -> (inject_Z threshold <= s / 100 * 100)%Q.
Proof.
  unfold meets. rewrite Qle_bool_iff. intros Hs.
  rewrite Qmult_comm, Qmult_div_r by discriminate. exact Hs.
Qed.

Lemma fuzzy_keywords_ok input word ws we keywords threshold r :
  0 <= ws < we -> we <= len input -> word = slice input ws we ->
  all_chars isword word = true ->
  fuzzy_keywords word ws we keywords threshold = Some r ->
  fuzzy_span_ok input threshold r.
Proof.
  intros Hw Hl Hs Hc. induction keywords as [| keyword rest IH]; cbn [fuzzy_keywords];
    [discriminate |].
  destruct (negb (truthy (strip keyword))); [exact IH |].
  destruct (meets (ratio _ _) threshold) eqn:E1.
  { intros [= <-]. unfold fuzzy_span_ok, well_formed, fuzzy_result. cbn.
    repeat split; try lia; try assumption; [now apply meets_score | now left]. }
  destruct (4 <? len keyword); [| exact IH].
  destruct (meets (partial_ratio _ _) threshold) eqn:E2; [| exact IH].
  intros [= <-]. unfold fuzzy_span_ok, well_formed, fuzzy_result. cbn.
  repeat split; try lia; try assumption; [now apply meets_score | now right].
Qed.

(** X8. Whatever the text, the keywords and the threshold, every span of
    the fuzzy matcher is a word of the text: a run of word characters
    that is not empty, in the range the span gives; and its confidence
    times 100 is at least the threshold. *)
Theorem fuzzy_match_spans_are_words (input : string) (keywords : list string)
  (threshold : Z) :
  Forall (fuzzy_span_ok input threshold) (_fuzzy_match input keywords threshold).
Proof.
  rewrite fuzzy_match_omap. unfold finditer.
  pose proof (scan_ok word_pattern input (S (String.length input)) 0) as Hok.
  pose proof (scan_words input (S (String.length input)) 0) as Hw.
  induction (scan (S (String.length input)) word_pattern input 0) as [| m l IH];
    [constructor |].
  apply Forall_cons_1 in Hok as [[Hm _] Hok], Hw as [[Hlt Hc] Hw].
  cbn [omap list_omap]. change (list_omap _ _ ?f l) with (omap f l).
  destruct (fuzzy_word input keywords threshold m) as [r |] eqn:E;
    [constructor |]; try (apply IH; assumption).
  unfold fuzzy_word in E. eapply fuzzy_keywords_ok; [| | | | exact E].
  - lia.
  - unfold len. lia.
  - rewrite slice_inside by (unfold len; lia). unfold group0. f_equal; lia.
  - exact Hc.
Qed.

End FuzzySpans.

Section LabelSpans.
Import Py Re Detector.

Lemma substring_zero n s : substring n 0 s = "".
Proof.
  revert s. induction n as [| n IH]; intros [| c s]; cbn; try reflexivity. apply IH.
Qed.

Lemma label_step_ok input results m :
  match_ok input m ->
  Forall (label_span_ok input) results ->
  Forall (label_span_ok input) (label_step input results m).
Proof.
  intros [_ Hc] Hr. unfold label_step.
  destruct (m_group1 m) as [[s e] |]; [| exact Hr]. cbn in Hc.
  destruct (negb (truthy (strip (substring s (e - s) input))) || _) eqn:E1; [exact Hr |].
  apply orb_false_iff in E1 as [Ht E1]. apply negb_false_iff in Ht. apply Z.ltb_ge in E1.
  destruct (bool_decide _ || _ || _) eqn:E2; [exact Hr |].
  apply orb_false_iff in E2 as [E2 E4]. apply orb_false_iff in E2 as [E2 E3].
  apply bool_decide_eq_false in E2.
  apply Forall_app. split; [exact Hr |]. constructor; [| constructor].
  assert (s < e)%nat as Hse.
  { destruct (Nat.eq_dec s e) as [-> |]; [| lia].
    rewrite Nat.sub_diag, substring_zero in Ht. discriminate. }
  unfold label_span_ok. cbn [entity_type score match_mode start end_ text].
  repeat (split; [first [reflexivity | lia | assumption | unfold len; lia] |]).
  split.
  - rewrite slice_inside by (unfold len; lia). do 2 f_equal; lia.
  - repeat (split; [first [lia | assumption] |]). assumption.
Qed.

(** X9. Whatever the text, every span of the label heuristic is a PERSON of
    confidence 0.85 whose range lies in the text and whose text is the
    text of the range, trimmed; the text has two characters or more, is
    not a deny-list word and contains neither "id" nor "number", in any
    case of the letters. *)
Theorem label_spans_invariant (input : string) :
  Forall (label_span_ok input) (_detect_label_based_names input).
Proof.
  unfold _detect_label_based_names.
  pose proof (finditer_ok label_regex input) as Hok.
  enough (forall l acc, Forall (match_ok input) l ->
                        Forall (label_span_ok input) acc ->
                        Forall (label_span_ok input)
                               (fold_left (label_step input) l acc)) as E
      by (apply E; [exact Hok | constructor]).
  induction l as [| m l IH]; intros acc Hl Hacc; [exact Hacc |].
  apply Forall_cons_1 in Hl as [Hm Hl]. cbn [fold_left].
  apply IH; [exact Hl | now apply label_step_ok].
Qed.

End LabelSpans.

Section FuzzyZero.
Import Py Re Detector.
Context `{RapidFuzz}.

Lemma fuzzy_keywords_low_threshold word ws we keywords threshold :
  threshold <= 0 -> (forall a b, (0 <= ratio a b)%Q) ->
  Exists (fun keyword => truthy (strip keyword) = true) keywords ->
  is_Some (fuzzy_keywords word ws we keywords threshold).
Proof.
  intros Ht Hr. induction 1 as [keyword rest Hk | keyword rest Hk IH];
    cbn [fuzzy_keywords].
  - rewrite Hk. cbn [negb].
    assert (meets (ratio (lower word) (strip (lower keyword))) threshold = true) as ->.
    { unfold meets. apply Qle_bool_iff. eapply Qle_trans; [| apply Hr].
      change 0%Q with (inject_Z 0). now rewrite <- Zle_Qle. }
    eexists. reflexivity.
  - destruct (negb (truthy (strip keyword))); [exact IH |].
    destruct (meets (ratio _ _) threshold); [eexists; reflexivity |].
    destruct (4 <? len keyword); [| exact IH].
    destruct (meets (partial_ratio _ _) threshold); [eexists; reflexivity | exact IH].
Qed.

Lemma omap_all_some {A B} (f : A -> option B) (l : list A) :
  (forall x, is_Some (f x)) -> length (omap f l) = length l.
Proof.
  intros Hf. induction l as [| x l IH]; [reflexivity |].
  cbn [omap list_omap]. change (list_omap _ _ f l) with (omap f l).
  destruct (Hf x) as [y ->]. cbn [length]. now rewrite IH.
Qed.

(** X10. At a threshold of 0 or less, with a ratio that is never negative and
    at least one keyword that is not blank, the fuzzy matcher reports
    every word of the text, whatever the keywords are. *)
Theorem fuzzy_zero_threshold_reports_every_word (text : string)
  (keywords : list string) (threshold : Z) :
  threshold <= 0 -> (forall a b, (0 <= ratio a b)%Q) ->
  Exists (fun keyword => truthy (strip keyword) = true) keywords ->
  length (_fuzzy_match text keywords threshold)
  = length (finditer word_pattern text).
Proof.
  intros Ht Hr Hk. rewrite fuzzy_match_omap. apply omap_all_some.
  intros m. now apply fuzzy_keywords_low_threshold.
Qed.

End FuzzyZero.

Lemma indel_ratio_nonneg (a b : string) : (0 <= Fuzz.indel_ratio a b)%Q.
Proof.
  unfold Fuzz.indel_ratio.
  destruct (String.length a + String.length b)%nat; unfold Qle; simpl; lia.
Qed.

Lemma fuzzy_zero_threshold_reports_every_word_witness :
  length (@Detector._fuzzy_match (Fuzz.indel_fuzz (fun _ _ => 0%Q))
            "pay Ravi now" ["zzz"] 0)
  = length (Re.finditer Detector.word_pattern "pay Ravi now").
Proof.
  apply (@fuzzy_zero_threshold_reports_every_word
           (Fuzz.indel_fuzz (fun _ _ => 0%Q)) "pay Ravi now" ["zzz"] 0).
  - lia.
  - apply indel_ratio_nonneg.
  - left. reflexivity.
Defined.

Section RegexMore.
Import Py Detector.
Variable Pattern : Type.
Variable re_compile : string -> compiled Pattern.
Variable re_finditer : Pattern -> string -> list (Z * Z).

Lemma regex_patterns_spec text patterns :
  forall results,
    regex_patterns Pattern re_compile re_finditer text patterns results
    = if existsb (pattern_raises Pattern re_compile) patterns then Raises
      else Returns (results ++ flat_map (pattern_spans Pattern re_compile re_finditer text) patterns).
Proof.
  induction patterns as [| pattern rest IH]; intros results;
    cbn [regex_patterns existsb flat_map].
  - now rewrite app_nil_r.
  - unfold pattern_raises at 1, pattern_spans at 1.
    destruct (truthy (strip pattern)); cbn [negb andb orb].
    + destruct (re_compile (strip pattern)); cbn [orb]; [| | reflexivity];
        rewrite IH; destruct (existsb (pattern_raises Pattern re_compile) rest); try reflexivity.
      now rewrite app_assoc.
    + now rewrite IH.
Qed.

(** X11. The regex matcher returns the spans of its patterns, one pattern
    after the other, unless some pattern that is not blank makes the
    compiler raise something else than [re.error]: then it raises, and
    the spans of all the patterns, also of those before, are lost. *)
Theorem regex_match_all_or_nothing (text : string) (patterns : list string) :
  _regex_match Pattern re_compile re_finditer text patterns
  = if existsb (pattern_raises Pattern re_compile) patterns then Raises
    else Returns (flat_map (pattern_spans Pattern re_compile re_finditer text) patterns).
Proof. unfold _regex_match. now rewrite regex_patterns_spec. Qed.

End RegexMore.

Section PresidioFacts.
Import Py Detector Presidio.
Variable analyze : string -> list string -> outcome (list RecognizerResult).

Lemma append_missing_elem name l x :
  x ∈ append_missing name l <-> x ∈ l \/ x = name.
Proof.
  unfold append_missing. destruct (bool_decide (name ∈ l)) eqn:E.
  - apply bool_decide_eq_true in E. split; [now left | intros [Hx | ->]; assumption].
  - rewrite elem_of_app, list_elem_of_singleton. tauto.
Qed.

Lemma append_missing_nodup name l : NoDup l -> NoDup (append_missing name l).
Proof.
  intros Hl. unfold append_missing. destruct (bool_decide (name ∈ l)) eqn:E; [exact Hl |].
  apply bool_decide_eq_false in E. apply NoDup_app. split; [exact Hl | split].
  - intros x Hx Hn. apply list_elem_of_singleton in Hn. now subst.
  - apply NoDup_singleton.
Qed.

Lemma presidio_fold text min_score rs :
  forall acc,
    fold_left
      (fun results r =>
         if Qle_bool min_score (r_score r)
         then results ++ [presidio_result text r] else results) rs acc
    = acc ++ map (presidio_result text)
                 (List.filter (fun r => Qle_bool min_score (r_score r)) rs).
Proof.
  induction rs as [| r rs IH]; intros acc; cbn [fold_left List.filter].
  - now rewrite app_nil_r.
  - rewrite IH. destruct (Qle_bool min_score (r_score r)); [| reflexivity].
    cbn [map]. now rewrite <- app_assoc.
Qed.

(** X12. The recognizer layer asks the analyzer for the entities it is given
    and, whatever they are, for AADHAAR_IN and PAN_IN, none of them
    twice if the given ones are not repeated; it keeps the results of at
    least the minimum score, in order, and returns nothing when the
    analyzer raises. *)
Theorem presidio_layer_spec (text : string) (entities : list string)
  (min_score : Q) :
  (forall e, e ∈ all_entities entities
             <-> e ∈ entities \/ e = "AADHAAR_IN" \/ e = "PAN_IN")
  /\ (NoDup entities -> NoDup (all_entities entities))
  /\ Forall (fun r => (min_score <= score r)%Q /\ match_mode r = "presidio")
            (_detect_with_presidio analyze text entities min_score)
  /\ (analyze text (all_entities entities) = Raises ->
      _detect_with_presidio analyze text entities min_score = []).
Proof.
  split; [| split; [| split]].
  - intros e. unfold all_entities. rewrite !append_missing_elem. tauto.
  - intros Hn. unfold all_entities. now do 2 apply append_missing_nodup.
  - unfold _detect_with_presidio.
    destruct (analyze text (all_entities entities)) as [rs |]; [| constructor].
    rewrite presidio_fold. cbn [app]. apply Forall_forall. intros r Hr.
    apply list_elem_of_In, in_map_iff in Hr as (x & <- & Hx).
    apply filter_In in Hx as [_ Hx]. apply Qle_bool_iff in Hx. now split.
  - intros E. unfold _detect_with_presidio. now rewrite E.
Qed.

End PresidioFacts.

Section ModelFacts.
Import Py Detector Presidio Model.
Context `{RapidFuzz}.
Variable Pattern : Type.
Variable re_compile : string -> compiled Pattern.
Variable re_finditer : Pattern -> string -> list (Z * Z).

Lemma parse_mode_unknown match_mode :
  lower match_mode <> "fuzzy" -> lower match_mode <> "regex" ->
  parse_mode match_mode = EXACT.
Proof.
  intros Hf Hr. unfold parse_mode, mode_map.
  destruct (decide (lower match_mode = "exact")) as [-> | He]; [reflexivity |].
  rewrite lookup_insert_ne by congruence.
  rewrite lookup_insert_ne by congruence.
  rewrite lookup_singleton_ne by congruence. reflexivity.
Qed.

(** X13. A matching mode that is neither "fuzzy" nor "regex", in any case of
    the letters, is the exact mode: an unknown mode is not an error. *)
Theorem unknown_mode_is_exact (analyze : string -> list string ->
                                         outcome (list RecognizerResult))
  (text : string) (custom_keywords : option (list string)) (match_mode : string)
  (fuzzy_threshold : Z) (enabled_entities : option (list string)) :
  lower match_mode <> "fuzzy" -> lower match_mode <> "regex" ->
  analyze_text_with_positions Pattern re_compile re_finditer analyze text
    custom_keywords match_mode fuzzy_threshold enabled_entities
  = analyze_text_with_positions Pattern re_compile re_finditer analyze text
      custom_keywords "exact" fuzzy_threshold enabled_entities.
Proof.
  intros Hf Hr. unfold analyze_text_with_positions.
  now rewrite (parse_mode_unknown match_mode Hf Hr).
Qed.

(** X14. No term that the analysis hands to the redaction is a deny-list
    word, trimmed and lowercased. *)
Theorem analysis_terms_not_denied
  (analyze : string -> list string -> outcome (list RecognizerResult))
  (text : string) (custom_keywords : option (list string)) (match_mode : string)
  (fuzzy_threshold : Z) (enabled_entities : option (list string))
  (terms : gset string) :
  analyze_text_from_string Pattern re_compile re_finditer analyze text
    custom_keywords match_mode fuzzy_threshold enabled_entities = Returns terms ->
  forall term, term ∈ terms -> lower (strip term) ∉ DENY_LIST.
Proof.
  unfold analyze_text_from_string, analyze_text_with_positions.
  destruct (detect _ _ _ _ _ _ _ _ _ _ _) as [out |] eqn:E; [| discriminate].
  intros [= <-] term Hterm. unfold detect in E.
  destruct (detect_layers _ _ _ _ _ _ _ _ _ _ _) as [layers |]; [| discriminate].
  injection E as <-.
  unfold get_unique_terms in Hterm. apply elem_of_list_to_set in Hterm.
  apply list_elem_of_In, in_map_iff in Hterm as (r & <- & Hr).
  unfold _filter_deny_list in Hr. rewrite filter_deny_list_fold in Hr.
  apply list_elem_of_In, list_elem_of_filter in Hr as [Hr _].
  apply denied_false in Hr. cbv zeta in Hr. rewrite lower_strip. tauto.
Qed.

End ModelFacts.

Lemma unknown_mode_is_exact_witness :
  @Model.analyze_text_with_positions (Fuzz.indel_fuzz (fun _ _ => 0%Q)) unit
    Detector.paren_compile (fun _ _ => []) (fun _ _ => Detector.Returns [])
    "Father Name  KISHOR KUMAR" (Some ["kumar"]) "Strict" 85 None
  = @Model.analyze_text_with_positions (Fuzz.indel_fuzz (fun _ _ => 0%Q)) unit
      Detector.paren_compile (fun _ _ => []) (fun _ _ => Detector.Returns [])
      "Father Name  KISHOR KUMAR" (Some ["kumar"]) "exact" 85 None.
Proof.
  apply (@unknown_mode_is_exact (Fuzz.indel_fuzz (fun _ _ => 0%Q)) unit
           Detector.paren_compile (fun _ _ => []) (fun _ _ => Detector.Returns [])
           "Father Name  KISHOR KUMAR" (Some ["kumar"]) "Strict" 85 None);
    vm_compute; discriminate.
Defined.

Lemma analysis_terms_not_denied_witness :
  Py.lower (Py.strip "KISHOR KUMAR") ∉ Detector.DENY_LIST.
Proof.
  apply (@analysis_terms_not_denied (Fuzz.indel_fuzz (fun _ _ => 0%Q)) unit
           Detector.paren_compile (fun _ _ => []) (fun _ _ => Detector.Returns [])
           "Father Name  KISHOR KUMAR" (Some ["father"]) "exact" 85 None
           (Presidio.get_unique_terms
              [ {| text := "KISHOR KUMAR"; entity_type := "PERSON";
                   start := 13; end_ := 25; score := 85 # 100;
                   match_mode := "label_heuristic" |} ])).
  - unfold Model.analyze_text_from_string.
    replace (Model.analyze_text_with_positions _ _ _ _ _ _ _ _ _)
      with (Detector.Returns
              [ {| text := "KISHOR KUMAR"; entity_type := "PERSON";
                   start := 13; end_ := 25; score := 85 # 100;
                   match_mode := "label_heuristic" |} ])
      by (vm_compute; reflexivity).
    reflexivity.
  - apply elem_of_list_to_set. left.
Defined.

Section AppendFacts.
Import Py.

Lemma length_append a b :
  String.length (a ++ b)%string = (String.length a + String.length b)%nat.
Proof.
  induction a as [| c a IH]; [reflexivity |].
  change (S (String.length (a ++ b)%string)
          = S (String.length a + String.length b)%nat).
  now f_equal.
Qed.

Lemma len_append a b : len (a ++ b)%string = len a + len b.
Proof. unfold len. rewrite length_append. lia. Qed.

Lemma append_cons x a b : (String x a ++ b)%string = String x (a ++ b)%string.
Proof. reflexivity. Qed.

Lemma append_nil_r a : (a ++ "")%string = a.
Proof.
  induction a as [| c a IH]; [reflexivity |]. rewrite append_cons. now f_equal.
Qed.

Lemma append_assoc a b c : ((a ++ b) ++ c)%string = (a ++ (b ++ c))%string.
Proof.
  induction a as [| x a IH]; [reflexivity |]. rewrite !append_cons. now f_equal.
Qed.

Lemma substring_prefix b : forall c, substring 0 (String.length b) (b ++ c)%string = b.
Proof.
  induction b as [| x b IH]; intros c.
  - now destruct c.
  - rewrite append_cons. cbn [String.length substring]. now f_equal.
Qed.

Lemma substring_skip a : forall m s,
  substring (String.length a) m (a ++ s)%string = substring 0 m s.
Proof.
  induction a as [| x a IH]; intros m s; [reflexivity |].
  rewrite append_cons. cbn [String.length substring]. apply IH.
Qed.

(** Cutting the middle part out of a string gives it back. *)
Lemma slice_middle a b c :
  slice (a ++ b ++ c)%string (len a) (len a + len b) = b.
Proof.
  rewrite slice_inside.
  - replace (Z.to_nat (len a)) with (String.length a) by (unfold len; lia).
    replace (Z.to_nat (len a + len b - len a)) with (String.length b)
      by (unfold len; lia).
    rewrite substring_skip. apply substring_prefix.
  - pose proof (len_nonneg a). pose proof (len_nonneg b). lia.
  - rewrite !len_append. pose proof (len_nonneg c). lia.
Qed.

End AppendFacts.

Section LineSpans.
Import Py Ocr.
Context `{Fitz}.

Lemma line_spans_spec l :
  forall line_text span_info,
    line_spans l line_text span_info
    = ((line_text ++ concat_texts l)%string,
       span_info ++ offsets (len line_text) l).
Proof.
  induction l as [| sp rest IH]; intros line_text span_info; cbn [line_spans].
  - cbn. now rewrite append_nil_r, app_nil_r.
  - rewrite IH. cbn [concat_texts offsets].
    now rewrite append_assoc, len_append, <- app_assoc.
Qed.

Lemma offsets_slices l :
  forall before after,
    map (fun i => slice (before ++ concat_texts l ++ after)%string
                        (fst (fst i)) (snd (fst i)))
        (offsets (len before) l)
    = map s_text l.
Proof.
  induction l as [| sp rest IH]; intros before after; [reflexivity |].
  cbn [offsets map concat_texts fst snd]. f_equal.
  - rewrite append_assoc. apply slice_middle.
  - rewrite <- len_append.
    specialize (IH (before ++ s_text sp)%string after).
    rewrite !append_assoc in IH. rewrite !append_assoc. exact IH.
Qed.

(** X15. The character-level reconstruction of a line is exact: the line is
    the texts of its layout spans one after the other, one offset range
    is recorded per span with the box of the span, and the range of a
    span, cut out of the line, is the text of the span. *)
Theorem line_spans_round_trip (l : line) :
  let '(line_text, span_info) := line_spans l "" [] in
  line_text = concat_texts l
  /\ map snd span_info = map s_bbox l
  /\ map (fun i => slice line_text (fst (fst i)) (snd (fst i))) span_info
     = map s_text l.
Proof.
  rewrite line_spans_spec. cbn [String.append app].
  split; [reflexivity | split].
  - change (len "") with 0. generalize 0. induction l as [| sp rest IH]; intros z;
      [reflexivity |]. cbn [offsets map snd]. now rewrite IH.
  - pose proof (offsets_slices l "" "") as E. cbn [String.append] in E.
    now rewrite append_nil_r in E.
Qed.

Lemma offsets_cover l :
  forall before i,
    before <= i < before + len (concat_texts l) ->
    exists entry, entry ∈ offsets before l
                  /\ fst (fst entry) <= i < snd (fst entry).
Proof.
  induction l as [| sp rest IH]; intros before i Hi; cbn [concat_texts offsets] in *.
  - change (len "") with 0 in Hi. lia.
  - rewrite len_append in Hi.
    destruct (Z.lt_ge_cases i (before + len (s_text sp))) as [Hlt | Hge].
    + eexists. split; [left |]. cbn. lia.
    + destruct (IH (before + len (s_text sp)) i ltac:(lia)) as (e & He & Hr).
      exists e. split; [now right | exact Hr].
Qed.

Lemma rect_for_range_some (span_info : list span_info_t) (i j : Z) entry :
  entry ∈ span_info -> i < snd (fst entry) -> fst (fst entry) < j ->
  exists rect, _get_rect_for_range span_info i j = Some rect.
Proof.
  intros Hin H1 H2. unfold _get_rect_for_range.
  match goal with
  | |- context [List.filter ?f span_info] =>
      destruct (List.filter f span_info) as [| e rest] eqn:E
  end; cbn [map]; [| eauto].
  exfalso.
  assert (In entry []) as Hf; [| destruct Hf].
  rewrite <- E. apply filter_In. split; [now apply list_elem_of_In |].
  apply andb_true_iff. split; apply Z.ltb_lt; lia.
Qed.

(** X16. A range of the line that is not empty always gets a rectangle. *)
Theorem rect_for_range_in_line (l : line) (i j : Z) :
  0 <= i < j -> j <= len (concat_texts l) ->
  exists rect, _get_rect_for_range (snd (line_spans l "" [])) i j = Some rect.
Proof.
  intros Hi Hj. rewrite line_spans_spec. cbn [snd app]. change (len "") with 0.
  destruct (offsets_cover l 0 i ltac:(lia)) as (entry & Hin & Hr).
  apply (rect_for_range_some _ i j entry Hin); lia.
Qed.

(** X17. A range that lies in the first of two spans gets the box of that
    span; a range that straddles the two gets the union of their boxes. *)
Theorem rect_for_range_two_spans (sp1 sp2 : span) (i j : Z) :
  0 <= i < j -> i < len (s_text sp1) ->
  _get_rect_for_range (snd (line_spans [sp1; sp2] "" [])) i j
  = if j <=? len (s_text sp1) then Some (s_bbox sp1)
    else Some (rect_or (s_bbox sp1) (s_bbox sp2)).
Proof.
  intros Hi H1. rewrite line_spans_spec. cbn [snd app offsets].
  change (len "") with 0. unfold _get_rect_for_range. cbn [List.filter fst snd].
  pose proof (len_nonneg (s_text sp2)).
  replace (i <? 0 + len (s_text sp1)) with true by (symmetry; apply Z.ltb_lt; lia).
  replace (0 <? j) with true by (symmetry; apply Z.ltb_lt; lia).
  replace (i <? 0 + len (s_text sp1) + len (s_text sp2)) with true
    by (symmetry; apply Z.ltb_lt; lia).
  cbn [andb]. rewrite Z.add_0_l.
  destruct (Z.leb_spec j (len (s_text sp1))).
  - replace (len (s_text sp1) <? j) with false by (symmetry; apply Z.ltb_ge; lia).
    reflexivity.
  - replace (len (s_text sp1) <? j) with true by (symmetry; apply Z.ltb_lt; lia).
    reflexivity.
Qed.

End LineSpans.

Lemma rect_for_range_in_line_witness :
  exists rect,
    @Ocr._get_rect_for_range Examples.box_fitz
      (snd (Ocr.line_spans Examples.two_spans "" [])) 5 10 = Some rect.
Proof.
  apply (@rect_for_range_in_line Examples.box_fitz Examples.two_spans 5 10).
  - lia.
  - vm_compute. discriminate.
Defined.

Lemma rect_for_range_two_spans_witness :
  @Ocr._get_rect_for_range Examples.box_fitz
    (snd (Ocr.line_spans [@Ocr.mkSpan Examples.box_fitz "JOHN SM" (10, 10, 60, 20);
                          @Ocr.mkSpan Examples.box_fitz "ITH" (60, 10, 80, 20)] "" [])) 5 10
  = Some ((10, 10, 80, 20) : @Ocr.Rect Examples.box_fitz).
Proof.
  apply (@rect_for_range_two_spans Examples.box_fitz
           (@Ocr.mkSpan Examples.box_fitz "JOHN SM" (10, 10, 60, 20))
           (@Ocr.mkSpan Examples.box_fitz "ITH" (60, 10, 80, 20)) 5 10).
  - lia.
  - vm_compute. reflexivity.
Defined.

Section RasterMore.
Import Py Ocr.
Context `{RapidFuzz}.
Variable available : bool.

Lemma process_words_filter (ocr_result : list ocr_word)
  (pii_terms : list string) (method replace_text : string)
  (fuzzy_threshold : option Z) :
  process_words available ocr_result pii_terms method replace_text fuzzy_threshold
  = flat_map (redact_word method replace_text)
             (List.filter (row_matches available pii_terms fuzzy_threshold) ocr_result).
Proof.
  induction ocr_result as [| w rest IH]; [reflexivity |].
  cbn [process_words List.filter]. unfold row_matches at 1.
  destruct (truthy (strip (o_text w))); cbn [negb andb]; [| exact IH].
  destruct (word_is_match _ _ _ _); [| exact IH].
  cbn [flat_map]. now rewrite IH.
Qed.

(** X18. What is drawn on the image is, row after row of the OCR
    result, the redaction of the rows whose trimmed text is not empty
    and matches a term: a row with a blank text is never drawn over, and
    every rectangle drawn is the filled box of a matching row. *)
Theorem process_words_draws_matching_rows (ocr_result : list ocr_word)
  (pii_terms : list string) (method replace_text : string)
  (fuzzy_threshold : option Z) :
  process_words available ocr_result pii_terms method replace_text fuzzy_threshold
  = flat_map (redact_word method replace_text)
             (List.filter (row_matches available pii_terms fuzzy_threshold) ocr_result)
  /\ forall p1 p2 c thickness,
      Rectangle p1 p2 c thickness
      ∈ process_words available ocr_result pii_terms method replace_text
                      fuzzy_threshold ->
      thickness = -1
      /\ exists w, w ∈ ocr_result
                   /\ row_matches available pii_terms fuzzy_threshold w = true
                   /\ p1 = (o_left w, o_top w)
                   /\ p2 = (o_left w + o_width w, o_top w + o_height w).
Proof.
  split; [apply process_words_filter |].
  rewrite process_words_filter. intros p1 p2 c thickness Hin.
  apply list_elem_of_In, in_flat_map in Hin as (w & Hw & Hop).
  apply filter_In in Hw as [Hw Hm].
  assert (thickness = -1 /\ p1 = (o_left w, o_top w)
          /\ p2 = (o_left w + o_width w, o_top w + o_height w)) as (-> & -> & ->).
  { unfold redact_word in Hop.
    destruct (String.eqb method "replace"); [| destruct (String.eqb method "obfuscate")];
      cbn in Hop; intuition congruence. }
  split; [reflexivity |]. exists w.
  split; [now apply list_elem_of_In | split; [exact Hm | split; reflexivity]].
Qed.

Lemma contains_empty s : contains s "" = true.
Proof.
  rewrite contains_occurs. destruct s; reflexivity.
Qed.

Lemma word_is_match_empty_term pii_terms fuzzy_threshold text :
  "" ∈ pii_terms -> word_is_match available pii_terms fuzzy_threshold text = true.
Proof.
  intros Hin. apply word_is_match_iff. apply Exists_exists. exists "".
  split; [exact Hin |]. left. apply contains_empty.
Qed.

(** X19. An empty term matches every word: with the empty string among the
    terms, every row of the OCR result whose text is not blank is
    redacted. *)
Theorem empty_term_redacts_every_word (ocr_result : list ocr_word)
  (pii_terms : list string) (method replace_text : string)
  (fuzzy_threshold : option Z) :
  "" ∈ pii_terms ->
  process_words available ocr_result pii_terms method replace_text fuzzy_threshold
  = flat_map (redact_word method replace_text)
             (List.filter (fun w => truthy (strip (o_text w))) ocr_result).
Proof.
  intros Hin. rewrite process_words_filter. f_equal.
  apply filter_ext. intros w. unfold row_matches.
  now rewrite word_is_match_empty_term, andb_true_r.
Qed.

(** X20. Without a threshold that is set, or without RapidFuzz, a word
    matches exactly when some term is a substring of it, case ignored:
    no similarity score is consulted. *)
Theorem raster_substring_only (pii_terms : list string)
  (fuzzy_threshold : option Z) (text : string) :
  threshold_set fuzzy_threshold && available = false ->
  word_is_match available pii_terms fuzzy_threshold text
  = existsb (fun term => contains (lower text) (lower term)) pii_terms.
Proof.
  intros Hoff. induction pii_terms as [| term rest IH]; [reflexivity |].
  cbn [word_is_match existsb]. rewrite Hoff, IH.
  now destruct (contains (lower text) (lower term)).
Qed.

(** X21. Matching in the raster layer ignores the case of the word, and
    the case of the terms when lowercasing changes the length of none of
    them: the partial score is asked for by [len(term) > 4], on the term
    as it was given. *)
Theorem raster_match_ignores_case (pii_terms : list string)
  (fuzzy_threshold : option Z) (text : string) :
  Forall (fun term => len (lower term) = len term) pii_terms ->
  word_is_match available (map lower pii_terms) fuzzy_threshold (lower text)
  = word_is_match available pii_terms fuzzy_threshold text.
Proof.
  induction 1 as [| term rest Hlen _ IH]; [reflexivity |].
  cbn [map word_is_match]. now rewrite !lower_idem, Hlen, IH.
Qed.

End RasterMore.

Lemma empty_term_redacts_every_word_witness :
  @Ocr.process_words (Fuzz.indel_fuzz (fun _ _ => 0%Q)) true
    [Ocr.mkWord "Total" 10 20 30 40; Ocr.mkWord "  " 50 20 30 40]
    ["John"; ""] "full_redact" "[REDACTED]" None
  = flat_map (Ocr.redact_word "full_redact" "[REDACTED]")
      (List.filter (fun w => Py.truthy (Py.strip (Ocr.o_text w)))
         [Ocr.mkWord "Total" 10 20 30 40; Ocr.mkWord "  " 50 20 30 40]).
Proof.
  apply (@empty_term_redacts_every_word (Fuzz.indel_fuzz (fun _ _ => 0%Q)) true).
  right. left.
Defined.

Lemma raster_match_ignores_case_witness :
  @Ocr.word_is_match (Fuzz.indel_fuzz (fun _ _ => 100%Q)) true
    (map Py.lower ["Smith"; "JOHN"]) (Some 85) (Py.lower "J0HN")
  = @Ocr.word_is_match (Fuzz.indel_fuzz (fun _ _ => 100%Q)) true
      ["Smith"; "JOHN"] (Some 85) "J0HN".
Proof.
  apply (@raster_match_ignores_case (Fuzz.indel_fuzz (fun _ _ => 100%Q)) true
           ["Smith"; "JOHN"] (Some 85) "J0HN").
  repeat constructor.
Defined.

Lemma raster_substring_only_witness :
  @Ocr.word_is_match (Fuzz.indel_fuzz (fun _ _ => 100%Q)) false ["john"] (Some 85)
    "J0HN"
  = existsb (fun term => Py.contains (Py.lower "J0HN") (Py.lower term)) ["john"].
Proof.
  apply (@raster_substring_only (Fuzz.indel_fuzz (fun _ _ => 100%Q)) false).
  reflexivity.
Defined.

Section PageFuzzy.
Import Py Ocr.
Context `{RapidFuzz} `{Fitz}.
Variable doc : Document.

Lemma fuzzy_line_spec term threshold (l : line) :
  forall positions,
    fold_left (fuzzy_span term threshold) l positions
    = positions ++ map s_bbox (List.filter (span_is_fuzzy term threshold) l).
Proof.
  induction l as [| sp rest IH]; intros positions; cbn [fold_left List.filter].
  - now rewrite app_nil_r.
  - rewrite IH. unfold fuzzy_span at 1. fold (span_is_fuzzy term threshold sp).
    destruct (span_is_fuzzy term threshold sp); [| reflexivity].
    cbn [map]. now rewrite <- app_assoc.
Qed.

Lemma fuzzy_lines_spec term threshold (lines : list line) :
  forall positions,
    fold_left (fun positions l => fold_left (fuzzy_span term threshold) l positions)
              lines positions
    = positions ++ map s_bbox (List.filter (span_is_fuzzy term threshold)
                                           (concat lines)).
Proof.
  induction lines as [| l rest IH]; intros positions; cbn [fold_left concat].
  - now rewrite app_nil_r.
  - rewrite IH, fuzzy_line_spec, List.filter_app, map_app. now rewrite app_assoc.
Qed.

Lemma fuzzy_blocks_spec term threshold (blocks : text_dict) :
  forall positions,
    fold_left (fuzzy_block term threshold) blocks positions
    = positions ++ map s_bbox (List.filter (span_is_fuzzy term threshold)
                                           (page_spans blocks)).
Proof.
  induction blocks as [| b rest IH]; intros positions;
    cbn [fold_left page_spans flat_map].
  - now rewrite app_nil_r.
  - rewrite IH. fold (page_spans rest). rewrite List.filter_app, map_app, app_assoc.
    f_equal. destruct b as [lines |]; cbn [fuzzy_block block_spans].
    + apply fuzzy_lines_spec.
    + cbn. now rewrite app_nil_r.
Qed.

(** X22. The fuzzy search of a page answers with the boxes of the layout
    spans that have a word meeting the threshold, in reading order, each
    box once, however many of its words match; and with nothing when the
    text of the page cannot be read. *)
Theorem fuzzy_search_one_box_per_span (page : nat) (term : string)
  (threshold : Z) (h : list event) :
  fst (_fuzzy_search_in_page doc page term threshold h)
  = match get_text doc h page false with
    | Returns blocks =>
        map s_bbox (List.filter (span_is_fuzzy term threshold) (page_spans blocks))
    | Raises => []
    end.
Proof.
  unfold _fuzzy_search_in_page, bind, call, ret.
  destruct (get_text doc h page false) as [blocks |]; [| reflexivity].
  cbn [fst]. now rewrite fuzzy_blocks_spec.
Qed.

End PageFuzzy.

Section TraceMore.
Import Py Ocr.
Context `{RapidFuzz} `{Fitz}.
Variable RAPIDFUZZ_AVAILABLE : bool.
Variable doc : Document.

Lemma text_layer_no_terms method replace_text thr page h :
  snd (text_layer RAPIDFUZZ_AVAILABLE doc [] method replace_text thr page h)
  = h ++ [EvApplyRedactions page].
Proof. reflexivity. Qed.

Lemma text_pass_no_terms method replace_text thr (l : list nat) :
  forall h,
    snd (for_each l (text_layer RAPIDFUZZ_AVAILABLE doc [] method replace_text thr) h)
    = h ++ map EvApplyRedactions l.
Proof.
  induction l as [| p l IH]; intros h; cbn [for_each map].
  - cbn. now rewrite app_nil_r.
  - rewrite snd_bind, text_layer_no_terms, IH. now rewrite <- app_assoc.
Qed.

(** X23. With no term to redact, the text layer searches nothing and
    annotates nothing: it only commits, page after page; the images are
    still processed and the document is still cleaned and saved. *)
Theorem no_terms_only_commits (method replace_text : string)
  (fuzzy_threshold : option Z) :
  exists image_pass closing,
    snd (legal_redact_pdf RAPIDFUZZ_AVAILABLE doc [] method replace_text
                          fuzzy_threshold [])
    = map EvApplyRedactions (seq 0 (page_count doc)) ++ image_pass ++ closing
    /\ Forall is_image image_pass
    /\ Forall is_closing closing
    /\ closing <> [].
Proof.
  unfold legal_redact_pdf. rewrite snd_bind, text_pass_no_terms. cbn [app].
  rewrite snd_bind.
  assert (appends is_image
            (for_each (pages doc)
               (image_layer RAPIDFUZZ_AVAILABLE doc [] method replace_text
                            fuzzy_threshold))) as Hi
      by (apply appends_for_each; intros p; apply image_layer_appends).
  destruct (Hi (map EvApplyRedactions (pages doc))) as (t2 & E2 & F2). rewrite E2.
  destruct (closing_appends doc (map EvApplyRedactions (pages doc) ++ t2))
    as (t3 & E3 & F3).
  exists t2, t3. split; [| split; [exact F2 | split; [exact F3 |]]].
  - etransitivity; [apply E3 |]. now rewrite <- app_assoc.
  - intros ->. rewrite app_nil_r in E3. revert E3.
    unfold clear_metadata, bind, call, ret.
    destruct (has_del_xml_metadata doc); cbn [snd]; intros E3;
      apply (f_equal length) in E3; rewrite !length_app in E3; cbn in E3; lia.
Qed.

End TraceMore.

Section ImagePass.
Import Py Ocr.
Context `{RapidFuzz} `{Fitz}.
Variable RAPIDFUZZ_AVAILABLE : bool.
Variable doc : Document.

Ltac appends_go :=
  repeat lazymatch goal with
  | |- appends _ (ret _) => apply appends_ret
  | |- appends _ (call _ _) => apply appends_call; try exact I; try reflexivity
  | |- appends _ (bind _ _) => apply appends_bind; [| intros ?]
  | |- appends _ (and_then _ _) => apply appends_and_then; [| intros ?]
  | |- appends _ (try_except _) => apply appends_try_except
  | |- appends _ (for_each _ _) => apply appends_for_each; intros ?
  | |- appends _ (if ?b then _ else _) => destruct b
  | |- appends _ (match ?x with _ => _ end) => destruct x
  end.

Lemma and_then_call_starts {A B} (e : event) (answer : list event -> outcome A)
  (f : A -> M (outcome B)) :
  (forall a, appends any_event (f a)) ->
  forall h, exists t, snd (and_then (call e answer) f h) = h ++ e :: t.
Proof.
  intros Hf h. unfold and_then. rewrite snd_bind. unfold call. cbn [fst snd].
  destruct (answer h) as [a |].
  - destruct (Hf a (h ++ [e])) as (t & E & _). exists t.
    etransitivity; [exact E |]. now rewrite <- app_assoc.
  - exists []. cbn. reflexivity.
Qed.

(** The block of an image starts with the extraction of the image,
    whatever happens then. *)
Lemma replace_one_image_starts pii_terms method replace_text thr page xref h :
  exists t,
    snd (replace_one_image RAPIDFUZZ_AVAILABLE doc pii_terms method replace_text
                           thr page xref h)
    = h ++ EvExtractImage xref :: t.
Proof.
  unfold replace_one_image. apply and_then_call_starts.
  intros a. appends_go.
Qed.

Lemma snd_try_except (m : M (outcome unit)) h :
  snd (try_except m h) = snd (m h).
Proof. unfold try_except, bind, ret. now destruct (m h). Qed.

Lemma images_all_attempted pii_terms method replace_text thr page
  (images : list Z) :
  forall h, exists t,
    snd (for_each images
           (fun xref => try_except
              (replace_one_image RAPIDFUZZ_AVAILABLE doc pii_terms method
                                 replace_text thr page xref)) h)
    = h ++ t
    /\ forall xref, xref ∈ images -> EvExtractImage xref ∈ t.
Proof.
  induction images as [| x rest IH]; intros h.
  - exists []. split; [symmetry; apply app_nil_r | intros xref Hx; inversion Hx].
  - cbn [for_each]. rewrite snd_bind. cbv beta. rewrite snd_try_except.
    destruct (replace_one_image_starts pii_terms method replace_text thr page x h)
      as (t1 & E1).
    rewrite E1. destruct (IH (h ++ EvExtractImage x :: t1)) as (t2 & E2 & C2).
    exists ((EvExtractImage x :: t1) ++ t2). split.
    + etransitivity; [exact E2 |]. now rewrite <- app_assoc.
    + intros xref Hx. apply elem_of_app. apply elem_of_cons in Hx as [-> | Hx].
      * left. left.
      * right. now apply C2.
Qed.

Lemma image_layer_attempts pii_terms method replace_text thr page h :
  exists t,
    snd (image_layer RAPIDFUZZ_AVAILABLE doc pii_terms method replace_text thr
                     page h)
    = h ++ EvGetImages page :: t
    /\ forall xref, xref ∈ get_images doc h page -> EvExtractImage xref ∈ t.
Proof.
  unfold image_layer. rewrite snd_bind. unfold call at 1 2. cbn [fst snd].
  destruct (images_all_attempted pii_terms method replace_text thr page
              (get_images doc h page) (h ++ [EvGetImages page])) as (t & E & C).
  exists t. split; [| exact C]. etransitivity; [exact E |]. now rewrite <- app_assoc.
Qed.

Lemma image_pass_attempts pii_terms method replace_text thr (l : list nat) :
  forall h, exists t,
    snd (for_each l (image_layer RAPIDFUZZ_AVAILABLE doc pii_terms method
                                 replace_text thr) h)
    = h ++ t
    /\ forall page, page ∈ l ->
         exists pre post,
           h ++ t = pre ++ EvGetImages page :: post
           /\ forall xref, xref ∈ get_images doc pre page ->
                           EvExtractImage xref ∈ post.
Proof.
  induction l as [| p l IH]; intros h.
  - exists []. split; [symmetry; apply app_nil_r | intros page Hp; inversion Hp].
  - cbn [for_each]. rewrite snd_bind.
    destruct (image_layer_attempts pii_terms method replace_text thr p h)
      as (t1 & E1 & C1).
    rewrite E1. destruct (IH (h ++ EvGetImages p :: t1)) as (t2 & E2 & C2).
    exists ((EvGetImages p :: t1) ++ t2). split.
    + etransitivity; [exact E2 |]. now rewrite <- app_assoc.
    + intros page Hp. apply elem_of_cons in Hp as [-> | Hp].
      * exists h, (t1 ++ t2). split; [reflexivity |].
        intros xref Hx. apply elem_of_app. left. now apply C1.
      * destruct (C2 page Hp) as (pre & post & E & C).
        exists pre, post. split; [| exact C]. rewrite <- E. now rewrite <- app_assoc.
Qed.

(** X24. A failure on one image stops neither the other images nor the other
    pages: for every page the images are listed, and the extraction of
    every image that is listed is attempted, whatever was raised before. *)
Theorem every_listed_image_is_attempted (pii_terms : list string)
  (method replace_text : string) (fuzzy_threshold : option Z) (page : nat) :
  (page < page_count doc)%nat ->
  exists pre post,
    snd (legal_redact_pdf RAPIDFUZZ_AVAILABLE doc pii_terms method replace_text
                          fuzzy_threshold [])
    = pre ++ EvGetImages page :: post
    /\ forall xref, xref ∈ get_images doc pre page -> EvExtractImage xref ∈ post.
Proof.
  intros Hp. unfold legal_redact_pdf. rewrite snd_bind.
  destruct (text_pass_trace RAPIDFUZZ_AVAILABLE doc pii_terms method replace_text
                            fuzzy_threshold (pages doc) []) as (t1 & E1 & _).
  rewrite E1. cbn [app]. rewrite snd_bind.
  destruct (image_pass_attempts pii_terms method replace_text fuzzy_threshold
                                (pages doc) t1) as (t2 & E2 & C2).
  rewrite E2.
  destruct (closing_appends doc (t1 ++ t2)) as (t3 & E3 & _).
  destruct (C2 page) as (pre & post & E & C); [apply elem_of_seq; lia |].
  exists pre, (post ++ t3). split.
  - etransitivity; [apply E3 |]. rewrite E. now rewrite <- app_assoc.
  - intros xref Hx. apply elem_of_app. left. now apply C.
Qed.

Lemma search_never_fuzzy page term thr :
  threshold_set thr && RAPIDFUZZ_AVAILABLE = false ->
  appends not_fuzzy_read
          (search_text_with_fallback RAPIDFUZZ_AVAILABLE doc page term thr).
Proof.
  intros Hoff. unfold search_text_with_fallback, _character_level_search.
  rewrite Hoff. appends_go.
Qed.

(** X25. With a threshold that is not set (none, or 0) or without RapidFuzz,
    the redaction of a document never runs the fuzzy search of a page. *)
Theorem no_threshold_no_fuzzy_search (pii_terms : list string)
  (method replace_text : string) (fuzzy_threshold : option Z) :
  threshold_set fuzzy_threshold && RAPIDFUZZ_AVAILABLE = false ->
  forall h, exists t,
    snd (legal_redact_pdf RAPIDFUZZ_AVAILABLE doc pii_terms method replace_text
                          fuzzy_threshold h) = h ++ t
    /\ Forall not_fuzzy_read t.
Proof.
  intros Hoff.
  change (appends not_fuzzy_read
            (legal_redact_pdf RAPIDFUZZ_AVAILABLE doc pii_terms method
                              replace_text fuzzy_threshold)).
  unfold legal_redact_pdf, text_layer, image_layer, replace_one_image,
    clear_metadata.
  repeat lazymatch goal with
  | |- appends _ (search_text_with_fallback _ _ _ _ _) =>
      apply search_never_fuzzy; exact Hoff
  | |- appends _ (ret _) => apply appends_ret
  | |- appends _ (call _ _) => apply appends_call; exact I
  | |- appends _ (bind _ _) => apply appends_bind; [| intros ?]
  | |- appends _ (and_then _ _) => apply appends_and_then; [| intros ?]
  | |- appends _ (try_except _) => apply appends_try_except
  | |- appends _ (for_each _ _) => apply appends_for_each; intros ?
  | |- appends _ (if ?b then _ else _) => destruct b
  | |- appends _ (match ?x with _ => _ end) => destruct x
  end.
Qed.

End ImagePass.

Lemma every_listed_image_is_attempted_witness :
  exists pre post,
    snd (@Ocr.legal_redact_pdf (Fuzz.indel_fuzz (fun _ _ => 0%Q)) Examples.box_fitz
           true Examples.one_page ["smith"] "obfuscate" "" (Some 85) [])
    = pre ++ Ocr.EvGetImages 0 :: post
    /\ forall xref, xref ∈ Ocr.get_images Examples.one_page pre 0%nat ->
                    Ocr.EvExtractImage xref ∈ post.
Proof.
  apply (@every_listed_image_is_attempted (Fuzz.indel_fuzz (fun _ _ => 0%Q))
           Examples.box_fitz true Examples.one_page ["smith"] "obfuscate" ""
           (Some 85) 0%nat).
  simpl. lia.
Defined.

Lemma no_threshold_no_fuzzy_search_witness :
  exists t,
    snd (@Ocr.legal_redact_pdf (Fuzz.indel_fuzz (fun _ _ => 0%Q)) Examples.box_fitz
           true Examples.one_page ["smith"] "obfuscate" "" (Some 0) []) = [] ++ t
    /\ Forall Ocr.not_fuzzy_read t.
Proof.
  apply (@no_threshold_no_fuzzy_search (Fuzz.indel_fuzz (fun _ _ => 0%Q))
           Examples.box_fitz true Examples.one_page ["smith"] "obfuscate" ""
           (Some 0)).
  reflexivity.
Defined.

Section CharLevel.
Import Py Ocr.
Context `{RapidFuzz} `{Fitz}.
Variable RAPIDFUZZ_AVAILABLE : bool.
Variable doc : Document.

(** The positions a loop was given stay in its answer. *)
Lemma line_loop_keeps line_lower term_lower term span_info n :
  forall idx positions rect,
    rect ∈ positions ->
    rect ∈ line_loop n line_lower term_lower term span_info idx positions.
Proof.
  induction n as [| n IH]; intros idx positions rect Hr; cbn [line_loop]; [exact Hr |].
  destruct (find line_lower term_lower idx =? -1); [exact Hr |].
  apply IH. destruct (_get_rect_for_range _ _ _) as [r |]; [| exact Hr].
  destruct (rect_truthy r); [| exact Hr]. apply elem_of_app. now left.
Qed.

Lemma line_loop_finds line_lower term_lower term span_info n (i : nat) rect :
  truthy term_lower = true ->
  startswith (drop i line_lower) term_lower = true ->
  _get_rect_for_range span_info (Z.of_nat i) (Z.of_nat i + len term) = Some rect ->
  rect_truthy rect = true ->
  forall idx positions,
    0 <= idx <= Z.of_nat i -> len line_lower + 2 - idx <= Z.of_nat n ->
    rect ∈ line_loop n line_lower term_lower term span_info idx positions.
Proof.
  intros Ht Hs Hrect Htruthy.
  assert (Z.of_nat i + len term_lower <= len line_lower) as Hfit.
  { apply startswith_len in Hs. unfold len in *. rewrite length_drop in Hs.
    apply truthy_len in Ht. unfold len in Ht. lia. }
  pose proof (len_nonneg term_lower) as Hnn.
  induction n as [| n IH]; intros idx positions Hidx Hn; [lia |].
  cbn [line_loop].
  destruct (find_first line_lower term_lower idx i) as [Hf Hle]; [lia | lia | exact Hs |].
  apply Z.eqb_neq in Hf. rewrite Hf. apply Z.eqb_neq in Hf.
  destruct (find_range line_lower term_lower idx ltac:(lia)) as [E | E]; [congruence |].
  destruct (Z.eq_dec (find line_lower term_lower idx) (Z.of_nat i)) as [-> | Hne].
  - rewrite Hrect, Htruthy. apply line_loop_keeps, elem_of_app. right. left.
  - apply IH; lia.
Qed.

Lemma search_line_keeps term (l : line) positions rect :
  rect ∈ positions -> rect ∈ search_line term positions l.
Proof.
  intros Hr. unfold search_line. destruct (line_spans l "" []) as [line_text span_info].
  now apply line_loop_keeps.
Qed.

Lemma search_lines_keep term (lines : list line) :
  forall positions rect,
    rect ∈ positions -> rect ∈ fold_left (search_line term) lines positions.
Proof.
  induction lines as [| l rest IH]; intros positions rect Hr; [exact Hr |].
  cbn [fold_left]. now apply IH, search_line_keeps.
Qed.

Lemma search_blocks_keep term (blocks : text_dict) :
  forall positions rect,
    rect ∈ positions -> rect ∈ fold_left (search_block term) blocks positions.
Proof.
  induction blocks as [| b rest IH]; intros positions rect Hr; [exact Hr |].
  cbn [fold_left]. apply IH. destruct b as [lines |]; [| exact Hr].
  now apply search_lines_keep.
Qed.

Lemma search_line_finds term (l : line) positions (i : nat) rect :
  truthy term = true ->
  startswith (drop i (lower (concat_texts l))) (lower term) = true ->
  _get_rect_for_range (snd (line_spans l "" [])) (Z.of_nat i)
                      (Z.of_nat i + len term) = Some rect ->
  rect_truthy rect = true ->
  rect ∈ search_line term positions l.
Proof.
  intros Ht Hs Hrect Htruthy. unfold search_line.
  rewrite line_spans_spec in *. cbn [String.append app snd] in *.
  apply (line_loop_finds _ _ _ _ _ i); try assumption.
  - now rewrite truthy_lower.
  - lia.
  - unfold len. lia.
Qed.

(** X26. The character-level search finds every occurrence: wherever the
    term occurs in the text of a line of the page, case ignored, and
    across layout spans or not, the rectangle of the occurrence is in
    the answer, if it is a rectangle that counts as true. *)
Theorem char_level_finds_every_occurrence (page : nat) (term : string)
  (h : list event) (blocks : text_dict) (lines : list line) (l : line)
  (i : nat) (rect : Rect) :
  get_text doc h page true = Returns blocks ->
  Some lines ∈ blocks -> l ∈ lines ->
  truthy term = true ->
  startswith (drop i (lower (concat_texts l))) (lower term) = true ->
  _get_rect_for_range (snd (line_spans l "" [])) (Z.of_nat i)
                      (Z.of_nat i + len term) = Some rect ->
  rect_truthy rect = true ->
  rect ∈ fst (_character_level_search doc page term h).
Proof.
  intros Hg Hb Hl Ht Hs Hrect Htruthy.
  unfold _character_level_search, bind, call, ret. rewrite Hg. cbn [fst].
  apply list_elem_of_split in Hb as (b1 & b2 & ->).
  apply list_elem_of_split in Hl as (l1 & l2 & ->).
  rewrite fold_left_app. cbn [fold_left]. apply search_blocks_keep.
  cbn [search_block]. rewrite fold_left_app. cbn [fold_left].
  apply search_lines_keep. now apply (search_line_finds term l _ i).
Qed.

Ltac appends_method :=
  repeat lazymatch goal with
  | |- appends _ (ret _) => apply appends_ret
  | |- appends _ (call _ _) => apply appends_call; first [exact I | reflexivity]
  | |- appends _ (bind _ _) => apply appends_bind; [| intros ?]
  | |- appends _ (and_then _ _) => apply appends_and_then; [| intros ?]
  | |- appends _ (try_except _) => apply appends_try_except
  | |- appends _ (for_each _ _) => apply appends_for_each; intros ?
  | |- appends _ (if ?b then _ else _) => destruct b
  | |- appends _ (match ?x with _ => _ end) => destruct x
  end.

Lemma search_uses_method method replace_text page term thr :
  appends (uses_method method replace_text)
          (search_text_with_fallback RAPIDFUZZ_AVAILABLE doc page term thr).
Proof.
  unfold search_text_with_fallback, _character_level_search, _fuzzy_search_in_page.
  appends_method.
Qed.

(** X27. Every redaction annotation that the redaction of a document adds,
    on whatever page and for whatever term, carries the text or the
    fill of the method: the replacement text for "replace", a black fill
    for "obfuscate", an empty text for every other method. *)
Theorem every_annotation_uses_method (pii_terms : list string)
  (method replace_text : string) (fuzzy_threshold : option Z) :
  Forall (uses_method method replace_text)
         (snd (legal_redact_pdf RAPIDFUZZ_AVAILABLE doc pii_terms method
                                replace_text fuzzy_threshold []))
  /\ redact_annot method replace_text
     = (if String.eqb method "replace" then AnnotText replace_text
        else if String.eqb method "obfuscate" then AnnotFill (0, 0, 0)
        else AnnotText "").
Proof.
  split; [| reflexivity].
  assert (appends (uses_method method replace_text)
            (legal_redact_pdf RAPIDFUZZ_AVAILABLE doc pii_terms method
                              replace_text fuzzy_threshold)) as Ha.
  { unfold legal_redact_pdf, text_layer, image_layer, replace_one_image,
      clear_metadata.
    repeat first
      [ apply appends_bind; [| intros ?]
      | apply appends_for_each; intros ?
      | apply search_uses_method
      | progress appends_method ]. }
  destruct (Ha []) as (t & -> & F). exact F.
Qed.

End CharLevel.

Lemma char_level_finds_every_occurrence_witness :
  ((10, 10, 80, 20) : @Ocr.Rect Examples.box_fitz)
  ∈ fst (@Ocr._character_level_search Examples.box_fitz Examples.one_page 0%nat
           "Smith" []).
Proof.
  apply (@char_level_finds_every_occurrence Examples.box_fitz Examples.one_page
           0%nat "Smith" [] [Some [Examples.two_spans]] [Examples.two_spans]
           Examples.two_spans 5 (10, 10, 80, 20)).
  - reflexivity.
  - left.
  - left.
  - reflexivity.
  - vm_compute. reflexivity.
  - vm_compute. reflexivity.
  - reflexivity.
Defined.

Section FileNames.
Import Py Detector App.

Lemma rsplit_last_none sep s :
  rsplit_last sep s = None <-> occurs s (String sep "") = false.
Proof.
  induction s as [| c s IH]; [split; reflexivity |].
  cbn [rsplit_last occurs startswith]. rewrite startswith_nil, andb_true_r.
  rewrite orb_false_iff, <- IH.
  destruct (rsplit_last sep s) as [[head tail] |].
  - split; [discriminate | intros [_ E]; discriminate].
  - rewrite (Ascii.eqb_sym sep c). destruct (Ascii.eqb c sep); split; intuition congruence.
Qed.

Lemma rsplit_last_some sep s head tail :
  rsplit_last sep s = Some (head, tail) ->
  s = (head ++ String sep tail)%string /\ rsplit_last sep tail = None.
Proof.
  revert head. induction s as [| c s IH]; intros head; [discriminate |].
  cbn [rsplit_last].
  destruct (rsplit_last sep s) as [[h t] |] eqn:E.
  - intros [= <- <-]. destruct (IH h eq_refl) as [-> Hn]. split; [reflexivity | exact Hn].
  - destruct (Ascii.eqb_spec c sep) as [-> |]; [| discriminate].
    intros [= <- <-]. split; [reflexivity | exact E].
Qed.

Lemma rsplit_last_app sep head tail :
  rsplit_last sep tail = None ->
  rsplit_last sep (head ++ String sep tail) = Some (head, tail).
Proof.
  intros Hn. induction head as [| c head IH].
  - change ("" ++ String sep tail)%string with (String sep tail).
    cbn [rsplit_last]. now rewrite Hn, Ascii.eqb_refl.
  - change (String c head ++ String sep tail)%string
      with (String c (head ++ String sep tail)).
    cbn [rsplit_last]. now rewrite IH.
Qed.

Lemma pdf_has_no_dot ext : lower ext = "pdf" -> rsplit_last "." ext = None.
Proof.
  destruct ext as [| a [| b [| c [| d ext]]]]; try discriminate.
  cbn [lower]. intros [= Ha Hb Hc]. cbn [rsplit_last].
  destruct (Ascii.eqb_spec c "."%char) as [-> |]; [vm_compute in Hc; discriminate |].
  destruct (Ascii.eqb_spec b "."%char) as [-> |]; [vm_compute in Hb; discriminate |].
  destruct (Ascii.eqb_spec a "."%char) as [-> |]; [vm_compute in Ha; discriminate |].
  reflexivity.
Qed.

(** X28. A file name is allowed exactly when it ends in a dot and "pdf", in
    any case of the letters; the test never raises, also on a name
    without a dot. *)
Theorem allowed_file_is_pdf_suffix (filename : string) :
  exists b, allowed_file filename = Returns b
            /\ (b = true <-> exists stem ext,
                   filename = (stem ++ "." ++ ext)%string /\ lower ext = "pdf").
Proof.
  unfold allowed_file, rsplit. rewrite contains_occurs.
  destruct (occurs filename ".") eqn:Ho.
  - destruct (rsplit_last "." filename) as [[head tail] |] eqn:E;
      [| apply rsplit_last_none in E; congruence].
    cbn [lookup list_lookup]. eexists. split; [reflexivity |].
    rewrite bool_decide_eq_true. unfold ALLOWED_EXTENSIONS. rewrite elem_of_singleton.
    apply rsplit_last_some in E as [-> Hn]. split.
    + intros Hl. exists head, tail. split; [reflexivity | exact Hl].
    + intros (stem & ext & E & Hl).
      pose proof (rsplit_last_app "." stem ext (pdf_has_no_dot ext Hl)) as H1.
      pose proof (rsplit_last_app "." head tail Hn) as H2.
      change (stem ++ "." ++ ext)%string with (stem ++ String "." ext)%string in E.
      rewrite E in H2. rewrite H1 in H2. now injection H2 as _ <-.
  - exists false. split; [reflexivity |]. split; [discriminate |].
    intros (stem & ext & -> & Hl). exfalso.
    pose proof (rsplit_last_app "." stem ext (pdf_has_no_dot ext Hl)) as H1.
    apply rsplit_last_none in Ho.
    change (stem ++ "." ++ ext)%string with (stem ++ String "." ext)%string in Ho.
    congruence.
Qed.

End FileNames.

Section FormFacts.
Import Py Detector Model Service App.
Variable int : string -> option Z.

Lemma parse_mode_fuzzy match_mode :
  parse_mode match_mode = FUZZY <-> lower match_mode = "fuzzy".
Proof.
  unfold parse_mode, mode_map.
  destruct (decide (lower match_mode = "exact")) as [E | He].
  { rewrite E. split; discriminate. }
  rewrite lookup_insert_ne by congruence.
  destruct (decide (lower match_mode = "fuzzy")) as [E | Hf].
  { rewrite E. split; reflexivity. }
  rewrite lookup_insert_ne by congruence.
  destruct (decide (lower match_mode = "regex")) as [E | Hr].
  { rewrite E. split; [discriminate | congruence]. }
  rewrite lookup_singleton_ne by congruence. split; [discriminate | congruence].
Qed.

Lemma form_match_mode_cases field :
  (field = Some "fuzzy" /\ form_match_mode field = "fuzzy")
  \/ (field = Some "regex" /\ form_match_mode field = "regex")
  \/ (field <> Some "fuzzy" /\ field <> Some "regex"
      /\ form_match_mode field = "exact").
Proof.
  unfold form_match_mode. destruct field as [m |]; cbv zeta; cbn [default from_option id].
  - destruct (decide (m = "fuzzy")) as [-> | Hf]; [left; split; reflexivity |].
    destruct (decide (m = "regex")) as [-> | Hr]; [right; left; split; reflexivity |].
    right. right. split; [congruence | split; [congruence |]].
    destruct (bool_decide_reflect (m ∈ ["exact"; "fuzzy"; "regex"])) as [Hin | _];
      [| reflexivity].
    rewrite !elem_of_cons in Hin. destruct Hin as [-> | [-> | [-> | Hin]]];
      [reflexivity | congruence | congruence | inversion Hin].
  - right. right. split; [discriminate | split; [discriminate | reflexivity]].
Qed.

(** X29. What the endpoint hands on, whatever the form holds: a mode that is
    one of the three names and a threshold between 0 and 100; the
    detector runs in fuzzy mode exactly when the field is "fuzzy", and
    exactly then the redaction of the document is given the threshold.
    The service on its own is less strict: a mode that is "fuzzy" up to
    the case of its letters only makes the detector fuzzy, and the
    redaction of the document is given no threshold. *)
Theorem endpoint_mode_and_threshold (mode_field threshold_field : option string) :
  let match_mode := form_match_mode mode_field in
  let fuzzy_threshold := form_fuzzy_threshold int threshold_field in
  match_mode ∈ ["exact"; "fuzzy"; "regex"]
  /\ 0 <= fuzzy_threshold <= 100
  /\ (parse_mode match_mode = FUZZY <-> mode_field = Some "fuzzy")
  /\ (pdf_fuzzy_threshold match_mode fuzzy_threshold
      = if bool_decide (mode_field = Some "fuzzy") then Some fuzzy_threshold
        else None)
  /\ (forall direct_mode threshold,
        lower direct_mode = "fuzzy" -> direct_mode <> "fuzzy" ->
        parse_mode direct_mode = FUZZY
        /\ pdf_fuzzy_threshold direct_mode threshold = None).
Proof.
  cbv zeta. split; [| split; [| split; [| split]]].
  - destruct (form_match_mode_cases mode_field) as [[_ ->] | [[_ ->] | (_ & _ & ->)]];
      rewrite !elem_of_cons; auto.
  - unfold form_fuzzy_threshold. destruct (int _); lia.
  - rewrite parse_mode_fuzzy.
    destruct (form_match_mode_cases mode_field) as [[-> ->] | [[-> ->] | (Hf & _ & ->)]].
    + split; reflexivity.
    + split; [discriminate | intros [= E]; discriminate].
    + split; [discriminate | congruence].
  - unfold pdf_fuzzy_threshold.
    destruct (form_match_mode_cases mode_field) as [[-> ->] | [[-> ->] | (Hf & _ & ->)]].
    + reflexivity.
    + reflexivity.
    + rewrite bool_decide_eq_false_2 by exact Hf. reflexivity.
  - intros direct_mode threshold Hl Hne. split; [now apply parse_mode_fuzzy |].
    unfold pdf_fuzzy_threshold. apply String.eqb_neq in Hne. now rewrite Hne.
Qed.

End FormFacts.

Section FallbackKeywords.
Import Py Re Detector App.

Lemma rstrip_idem s : rstrip (rstrip s) = rstrip s.
Proof.
  induction s as [| c s IH]; [reflexivity |].
  cbn [rstrip]. destruct (rstrip s) as [| d r] eqn:E.
  - destruct (isspace c) eqn:Hc; [reflexivity |]. cbn [rstrip]. now rewrite Hc.
  - cbn [rstrip]. cbn [rstrip] in IH. now rewrite IH.
Qed.

Lemma lstrip_solid s :
  lstrip s = "" \/ exists c t, lstrip s = String c t /\ isspace c = false.
Proof.
  induction s as [| c s IH]; [now left |].
  cbn [lstrip]. destruct (isspace c) eqn:Hc; [exact IH |].
  right. exists c, s. split; [reflexivity | exact Hc].
Qed.

Lemma strip_idem s : strip (strip s) = strip s.
Proof.
  unfold strip. destruct (lstrip_solid s) as [-> | (c & t & -> & Hc)]; [reflexivity |].
  assert (lstrip (rstrip (String c t)) = rstrip (String c t)) as ->.
  { cbn [rstrip]. destruct (rstrip t); [rewrite Hc |]; cbn [lstrip]; now rewrite Hc. }
  apply rstrip_idem.
Qed.

Lemma all_chars_append p a b :
  all_chars p (a ++ b) = all_chars p a && all_chars p b.
Proof.
  induction a as [| c a IH]; [reflexivity |].
  change (String c a ++ b)%string with (String c (a ++ b)).
  cbn [all_chars]. now rewrite IH, andb_assoc.
Qed.

Lemma all_chars_lstrip p s : all_chars p s = true -> all_chars p (lstrip s) = true.
Proof.
  induction s as [| c s IH]; [reflexivity |].
  cbn [lstrip]. destruct (isspace c); [| tauto].
  cbn [all_chars]. intros H. apply andb_true_iff in H as [_ H]. now apply IH.
Qed.

Lemma all_chars_rstrip p s : all_chars p s = true -> all_chars p (rstrip s) = true.
Proof.
  induction s as [| c s IH]; [reflexivity |].
  cbn [all_chars rstrip]. intros H. apply andb_true_iff in H as [Hc H].
  specialize (IH H). destruct (rstrip s) as [| d r].
  - destruct (isspace c); [reflexivity |]. cbn [all_chars]. now rewrite Hc.
  - cbn [all_chars] in *. now rewrite Hc, IH.
Qed.

Lemma split_on_pieces sep s :
  forall cur,
    all_chars (fun c => negb (Ascii.eqb c sep)) cur = true ->
    Forall (fun k => all_chars (fun c => negb (Ascii.eqb c sep)) k = true)
           (split_on sep s cur).
Proof.
  induction s as [| c s IH]; intros cur Hcur; cbn [split_on].
  - now constructor.
  - destruct (Ascii.eqb c sep) eqn:E.
    + constructor; [exact Hcur | now apply IH].
    + apply IH. rewrite all_chars_append, Hcur. cbn [all_chars]. now rewrite E.
Qed.

(** X30. The keywords that the endpoint reads from a text that is not JSON
    are clean: none is empty, none has whitespace around it, none holds
    a comma. *)
Theorem fallback_keywords_are_clean (keywords_raw : string) :
  Forall (fun k => truthy k = true /\ strip k = k
                   /\ all_chars (fun c => negb (Ascii.eqb c ",")) k = true)
         (keywords_fallback keywords_raw).
Proof.
  unfold keywords_fallback.
  pose proof (split_on_pieces "," keywords_raw "" eq_refl) as Hp.
  induction Hp as [| k l Hk Hl IH]; [constructor |].
  cbn [List.filter]. destruct (truthy (strip k)) eqn:Ht; [| exact IH].
  cbn [map]. constructor; [| exact IH].
  split; [exact Ht | split; [apply strip_idem |]].
  unfold strip. now apply all_chars_rstrip, all_chars_lstrip.
Qed.

End FallbackKeywords.
